(** * RocksDBBridge: the C bridge of RocksDB.swift

    A shallow embedding of [Sources/CRocksDB/RocksDBBridge.cpp] and of the
    declarations of [include/RocksDBBridge.h].

    The bridge wraps the RocksDB C++ API.  The storage engine itself is an
    external collaborator: it is taken as a parameter (class
    [rocksdb.Engine]) whose operations act on an abstract engine world.
    The bridge code is embedded over that interface as state-passing
    functions in a small monad whose failure case stands for undefined
    behaviour of the C++ program (dereferencing a dangling handle, reading
    an array out of bounds). *)

From Stdlib Require Import ZArith NArith String Ascii List Bool Lia.
From stdpp Require Import base tactics option list gmap.

Set Default Proof Using "Type".

(** ** Byte ranges *)

(** A [const char*] as the bridge sees it: the null pointer, or a pointer
    to memory holding the given bytes. *)
Definition cptr : Type := option string.

(** [size_t] and [std::string::size()]. *)
Definition size (s : string) : N := N.of_nat (String.length s).

(** [rocksdb::Slice(data, size)]: the constructor stores the pointer and the
    length and reads nothing. *)
Record Slice : Type := mkSlice { data_ : cptr; size_ : N }.

(** [rocksdb::Range(start, limit)]. *)
Record Range : Type := mkRange { start : Slice; limit : Slice }.

(** What [strdup] copies out of a character array: the bytes before the
    first NUL. *)
Fixpoint until_nul (s : string) : string :=
  match s with
  | EmptyString => EmptyString
  | String c rest =>
      if Ascii.eqb c "000"%char then EmptyString else String c (until_nul rest)
  end.

(** [strdup(s)]: a heap copy of the C string.  The resulting [char*] is
    represented by the text it holds; the copy is never of zero bytes and
    no operation tests it for null. *)
Definition strdup (s : string) : cptr := Some (until_nul s).

(** ** Status codes ([RocksDBBridge.h]) *)

Inductive RocksDBStatusCode : Type :=
| RocksDBStatusOK
| RocksDBStatusNotFound
| RocksDBStatusCorruption
| RocksDBStatusNotSupported
| RocksDBStatusInvalidArgument
| RocksDBStatusIOError
| RocksDBStatusMergeInProgress
| RocksDBStatusIncomplete
| RocksDBStatusShutdownInProgress
| RocksDBStatusTimedOut
| RocksDBStatusAborted
| RocksDBStatusBusy
| RocksDBStatusExpired
| RocksDBStatusTryAgain
| RocksDBStatusCompactionTooLarge.

#[global] Instance RocksDBStatusCode_eq_dec : EqDecision RocksDBStatusCode.
Proof. solve_decision. Defined.

(** The enumerators' values. *)
Definition code_value (c : RocksDBStatusCode) : Z :=
  match c with
  | RocksDBStatusOK => 0
  | RocksDBStatusNotFound => 1
  | RocksDBStatusCorruption => 2
  | RocksDBStatusNotSupported => 3
  | RocksDBStatusInvalidArgument => 4
  | RocksDBStatusIOError => 5
  | RocksDBStatusMergeInProgress => 6
  | RocksDBStatusIncomplete => 7
  | RocksDBStatusShutdownInProgress => 8
  | RocksDBStatusTimedOut => 9
  | RocksDBStatusAborted => 10
  | RocksDBStatusBusy => 11
  | RocksDBStatusExpired => 12
  | RocksDBStatusTryAgain => 13
  | RocksDBStatusCompactionTooLarge => 14
  end.

(** [typedef struct { RocksDBStatusCode code; char* message; }
    RocksDBStatus]. *)
Record RocksDBStatus : Type := mkStatus {
  code : RocksDBStatusCode;
  message : cptr
}.

(** ** The engine interface *)

(** Cursor movements of [rocksdb::Iterator]. *)
Inductive IterMove : Type :=
| SeekToFirst
| SeekToLast
| Seek (target : Slice)
| SeekForPrev (target : Slice)
| Next
| Prev.

Module rocksdb.

(** The part of the RocksDB C++ API the bridge calls.  The types [DB],
    [OptimisticTransactionDB], [Iterator], [Transaction] and [Snapshot]
    are the non-null pointers to engine objects; the objects themselves
    live in [world]. *)
Class Engine : Type := {
  (** [rocksdb::Status] *)
  Status : Type;
  ok : Status → bool;
  IsNotFound : Status → bool;
  IsCorruption : Status → bool;
  IsNotSupported : Status → bool;
  IsInvalidArgument : Status → bool;
  IsIOError : Status → bool;
  IsMergeInProgress : Status → bool;
  IsIncomplete : Status → bool;
  IsShutdownInProgress : Status → bool;
  IsTimedOut : Status → bool;
  IsAborted : Status → bool;
  IsBusy : Status → bool;
  IsExpired : Status → bool;
  IsTryAgain : Status → bool;
  IsCompactionTooLarge : Status → bool;
  ToString : Status → string;
  (** option blocks and their default-constructed values *)
  Options : Type;
  ReadOptions : Type;
  WriteOptions : Type;
  ReadOptions_default : ReadOptions;
  WriteOptions_default : WriteOptions;
  (** engine objects *)
  DB : Type;
  OptimisticTransactionDB : Type;
  Iterator : Type;
  Transaction : Type;
  Snapshot : Type;
  world : Type;
  (** [rocksdb::WriteBatch], a value *)
  WriteBatch : Type;
  WriteBatch_new : WriteBatch;
  WriteBatch_Put : WriteBatch → Slice → Slice → WriteBatch;
  WriteBatch_Delete : WriteBatch → Slice → WriteBatch;
  WriteBatch_DeleteRange : WriteBatch → Slice → Slice → WriteBatch;
  WriteBatch_Clear : WriteBatch → WriteBatch;
  WriteBatch_Count : WriteBatch → N;
  WriteBatch_GetDataSize : WriteBatch → N;
  (** opening and closing; the [option] is what the engine stores through
      its pointer out-parameter, which is null beforehand *)
  DB_Open : Options → string → world → Status * option DB * world;
  DB_OpenForReadOnly :
    Options → string → bool → world → Status * option DB * world;
  OptimisticTransactionDB_Open :
    Options → string → world →
    Status * option OptimisticTransactionDB * world;
  GetBaseDB : OptimisticTransactionDB → world → option DB;
  delete_DB : DB → world → world;
  delete_OptimisticTransactionDB : OptimisticTransactionDB → world → world;
  (** [rocksdb::DB] *)
  Put : DB → WriteOptions → Slice → Slice → world → Status * world;
  Get : DB → ReadOptions → Slice → world → Status * string * world;
  Delete : DB → WriteOptions → Slice → world → Status * world;
  KeyMayExist : DB → ReadOptions → Slice → world → bool * world;
  DB_Write : DB → WriteOptions → WriteBatch → world → Status * world;
  NewIterator : DB → ReadOptions → world → option Iterator * world;
  GetSnapshot : DB → world → option Snapshot * world;
  ReleaseSnapshot : DB → Snapshot → world → world;
  CompactRange : DB → option Slice → option Slice → world → Status * world;
  Flush : DB → bool → world → Status * world;
  GetProperty : DB → string → world → bool * string;
  (** [GetApproximateSizes] stores one estimate per range, [sizes[i]] for
      [ranges[i]]; [ApproximateSize] is that estimate. *)
  ApproximateSize : DB → Range → world → N;
  (** [rocksdb::Iterator] *)
  Valid : Iterator → world → bool;
  Iterator_move : IterMove → Iterator → world → world;
  key : Iterator → world → Slice;
  value : Iterator → world → Slice;
  status : Iterator → world → Status;
  delete_Iterator : Iterator → world → world;
  (** [rocksdb::OptimisticTransactionDB] and [rocksdb::Transaction] *)
  BeginTransaction :
    OptimisticTransactionDB → WriteOptions → world →
    option Transaction * world;
  Transaction_Put : Transaction → Slice → Slice → world → Status * world;
  Transaction_Get :
    Transaction → ReadOptions → Slice → world → Status * string * world;
  Transaction_GetForUpdate :
    Transaction → ReadOptions → Slice → world → Status * string * world;
  Transaction_Delete : Transaction → Slice → world → Status * world;
  Transaction_GetIterator :
    Transaction → ReadOptions → world → option Iterator * world;
  Transaction_Commit : Transaction → world → Status * world;
  Transaction_Rollback : Transaction → world → Status * world;
  Transaction_SetSavePoint : Transaction → world → world;
  Transaction_RollbackToSavePoint : Transaction → world → Status * world;
  delete_Transaction : Transaction → world → world
}.

End rocksdb.

Section Bridge.

Context {E : rocksdb.Engine}.

(** ** Helper functions *)

(** The chain of tests of [make_status] on a status that is not OK. *)
Definition map_code (s : rocksdb.Status) : RocksDBStatusCode :=
  if rocksdb.IsNotFound s then RocksDBStatusNotFound
  else if rocksdb.IsCorruption s then RocksDBStatusCorruption
  else if rocksdb.IsNotSupported s then RocksDBStatusNotSupported
  else if rocksdb.IsInvalidArgument s then RocksDBStatusInvalidArgument
  else if rocksdb.IsIOError s then RocksDBStatusIOError
  else if rocksdb.IsMergeInProgress s then RocksDBStatusMergeInProgress
  else if rocksdb.IsIncomplete s then RocksDBStatusIncomplete
  else if rocksdb.IsShutdownInProgress s then RocksDBStatusShutdownInProgress
  else if rocksdb.IsTimedOut s then RocksDBStatusTimedOut
  else if rocksdb.IsAborted s then RocksDBStatusAborted
  else if rocksdb.IsBusy s then RocksDBStatusBusy
  else if rocksdb.IsExpired s then RocksDBStatusExpired
  else if rocksdb.IsTryAgain s then RocksDBStatusTryAgain
  else if rocksdb.IsCompactionTooLarge s then RocksDBStatusCompactionTooLarge
  else RocksDBStatusIOError.

(** The same chain as a table read top down: the tests in the order
    [make_status] tries them, each with the code it selects. *)
Definition priority_order
  : list ((rocksdb.Status → bool) * RocksDBStatusCode) :=
  [ (rocksdb.IsNotFound, RocksDBStatusNotFound);
    (rocksdb.IsCorruption, RocksDBStatusCorruption);
    (rocksdb.IsNotSupported, RocksDBStatusNotSupported);
    (rocksdb.IsInvalidArgument, RocksDBStatusInvalidArgument);
    (rocksdb.IsIOError, RocksDBStatusIOError);
    (rocksdb.IsMergeInProgress, RocksDBStatusMergeInProgress);
    (rocksdb.IsIncomplete, RocksDBStatusIncomplete);
    (rocksdb.IsShutdownInProgress, RocksDBStatusShutdownInProgress);
    (rocksdb.IsTimedOut, RocksDBStatusTimedOut);
    (rocksdb.IsAborted, RocksDBStatusAborted);
    (rocksdb.IsBusy, RocksDBStatusBusy);
    (rocksdb.IsExpired, RocksDBStatusExpired);
    (rocksdb.IsTryAgain, RocksDBStatusTryAgain);
    (rocksdb.IsCompactionTooLarge, RocksDBStatusCompactionTooLarge) ].

(** The code of the first test of a table that holds, if any does. *)
Fixpoint first_match
    (tests : list ((rocksdb.Status → bool) * RocksDBStatusCode))
    (s : rocksdb.Status) : option RocksDBStatusCode :=
  match tests with
  | [] => None
  | (test, c) :: rest => if test s then Some c else first_match rest s
  end.

Definition make_status (s : rocksdb.Status) : RocksDBStatus :=
  if rocksdb.ok s then
    {| code := RocksDBStatusOK; message := None |}
  else
    {| code := map_code s; message := strdup (rocksdb.ToString s) |}.

Definition make_ok : RocksDBStatus :=
  {| code := RocksDBStatusOK; message := None |}.

(** The status every operation builds in place when its handle is null. *)
Definition invalid_argument (text : string) : RocksDBStatus :=
  {| code := RocksDBStatusInvalidArgument; message := strdup text |}.

(** ** Internal handle structures *)

Record RocksDBHandle : Type := mkHandle {
  db : option rocksdb.DB;
  txn_db : option rocksdb.OptimisticTransactionDB;
  is_transactional : bool
}.

Record RocksDBIteratorHandle : Type := mkIteratorHandle {
  iter : option rocksdb.Iterator
}.

Record RocksDBBatchHandle : Type := mkBatchHandle {
  batch : rocksdb.WriteBatch
}.

Record RocksDBTransactionHandle : Type := mkTransactionHandle {
  txn : option rocksdb.Transaction
}.

Record RocksDBSnapshotHandle : Type := mkSnapshotHandle {
  snapshot : option rocksdb.Snapshot
}.

(** ** Program state *)

(** The engine world, the live handle objects of each kind (allocated by
    [new], released by [delete]), the live [malloc] blocks, and the
    allocator's answer: [malloc_null n] tells whether [malloc(n)] returns
    the null pointer, as the point lookups test for.  (ISO C leaves the
    answer to a request of zero bytes to the implementation.) *)
Record State : Type := mkState {
  engine : rocksdb.world;
  db_handles : gmap positive RocksDBHandle;
  iterator_handles : gmap positive RocksDBIteratorHandle;
  batch_handles : gmap positive RocksDBBatchHandle;
  transaction_handles : gmap positive RocksDBTransactionHandle;
  snapshot_handles : gmap positive RocksDBSnapshotHandle;
  buffers : gmap positive string;
  malloc_null : N → bool
}.

Definition set_engine (w : rocksdb.world) (st : State) : State :=
  mkState w (db_handles st) (iterator_handles st) (batch_handles st)
    (transaction_handles st) (snapshot_handles st) (buffers st)
    (malloc_null st).

(** One kind of heap object: how to read and replace its table. *)
Record Kind (A : Type) : Type := mkKind {
  table : State → gmap positive A;
  set_table : gmap positive A → State → State
}.
Arguments table {A} _ _.
Arguments set_table {A} _ _ _.

Definition db_kind : Kind RocksDBHandle :=
  mkKind _ db_handles (λ m st,
    mkState (engine st) m (iterator_handles st) (batch_handles st)
      (transaction_handles st) (snapshot_handles st) (buffers st)
      (malloc_null st)).

Definition iterator_kind : Kind RocksDBIteratorHandle :=
  mkKind _ iterator_handles (λ m st,
    mkState (engine st) (db_handles st) m (batch_handles st)
      (transaction_handles st) (snapshot_handles st) (buffers st)
      (malloc_null st)).

Definition batch_kind : Kind RocksDBBatchHandle :=
  mkKind _ batch_handles (λ m st,
    mkState (engine st) (db_handles st) (iterator_handles st) m
      (transaction_handles st) (snapshot_handles st) (buffers st)
      (malloc_null st)).

Definition transaction_kind : Kind RocksDBTransactionHandle :=
  mkKind _ transaction_handles (λ m st,
    mkState (engine st) (db_handles st) (iterator_handles st)
      (batch_handles st) m (snapshot_handles st) (buffers st)
      (malloc_null st)).

Definition snapshot_kind : Kind RocksDBSnapshotHandle :=
  mkKind _ snapshot_handles (λ m st,
    mkState (engine st) (db_handles st) (iterator_handles st)
      (batch_handles st) (transaction_handles st) m (buffers st)
      (malloc_null st)).

Definition buffer_kind : Kind string :=
  mkKind _ buffers (λ m st,
    mkState (engine st) (db_handles st) (iterator_handles st)
      (batch_handles st) (transaction_handles st) (snapshot_handles st) m
      (malloc_null st)).

(** ** The monad of bridge code

    A computation takes the state and either is undefined ([None]) or
    returns a result and the next state. *)
Definition M (A : Type) : Type := State → option (A * State).

#[global] Instance M_ret : MRet M := λ A a st, Some (a, st).

#[global] Instance M_bind : MBind M := λ A B f m st,
  match m st with
  | Some (a, st') => f a st'
  | None => None
  end.

Definition undefined {A : Type} : M A := λ _, None.

(** Calls into the engine. *)
Definition call {A : Type} (f : rocksdb.world → A * rocksdb.world) : M A :=
  λ st, let '(a, w) := f (engine st) in Some (a, set_engine w st).

Definition query {A : Type} (f : rocksdb.world → A) : M A :=
  λ st, Some (f (engine st), st).

Definition update (f : rocksdb.world → rocksdb.world) : M unit :=
  λ st, Some (tt, set_engine (f (engine st)) st).

(** [new T(...)], [*p], [*p = a] and the release of the storage of [p].
    Access through a pointer that is not live is undefined. *)
Definition new {A : Type} (k : Kind A) (a : A) : M positive :=
  λ st, let p := fresh (dom (table k st)) in
        Some (p, set_table k (<[p := a]> (table k st)) st).

Definition load {A : Type} (k : Kind A) (p : positive) : M A :=
  λ st, match table k st !! p with
        | Some a => Some (a, st)
        | None => None
        end.

Definition store {A : Type} (k : Kind A) (p : positive) (a : A) : M unit :=
  λ st, match table k st !! p with
        | Some _ => Some (tt, set_table k (<[p := a]> (table k st)) st)
        | None => None
        end.

Definition release {A : Type} (k : Kind A) (p : positive) : M unit :=
  λ st, match table k st !! p with
        | Some _ => Some (tt, set_table k (delete p (table k st)) st)
        | None => None
        end.

(** ** Memory management *)

Fixpoint take_bytes (n : nat) (s : string) : string :=
  match n, s with
  | S n', String c rest => String c (take_bytes n' rest)
  | _, _ => EmptyString
  end.

Fixpoint drop_bytes (n : nat) (s : string) : string :=
  match n, s with
  | S n', String _ rest => drop_bytes n' rest
  | _, _ => s
  end.

(** The contents of a block fresh from [malloc]. *)
Fixpoint fresh_block (n : nat) : string :=
  match n with
  | O => EmptyString
  | S n' => String "000"%char (fresh_block n')
  end.

(** [malloc(n)]: null when the allocator says so, else a new block. *)
Definition malloc (n : N) : M (option positive) :=
  λ st, if malloc_null st n then Some (None, st)
        else (p ← new buffer_kind (fresh_block (N.to_nat n));
              mret (Some p)) st.

(** [memcpy(dst, src, n)]; both blocks must hold [n] bytes. *)
Definition memcpy (dst : positive) (src : string) (n : N) : M unit :=
  old ← load buffer_kind dst;
  if (n <=? size old)%N && (n <=? size src)%N then
    store buffer_kind dst
      (take_bytes (N.to_nat n) src ++ drop_bytes (N.to_nat n) old)%string
  else undefined.

(** [free(data)]. *)
Definition rocksdb_free_data (data : option positive) : M unit :=
  match data with
  | None => mret tt
  | Some p => release buffer_kind p
  end.

(** ** Handle references

    [RocksDBRef], [RocksDBIteratorRef], [RocksDBBatchRef],
    [RocksDBTransactionRef] and [RocksDBSnapshotRef] are pointers: null
    ([None]) or the address of a handle object.  The option blocks are
    only read by the operations below, so a reference to one is null or
    the block it points to. *)
Definition RocksDBRef : Type := option positive.
Definition RocksDBIteratorRef : Type := option positive.
Definition RocksDBBatchRef : Type := option positive.
Definition RocksDBTransactionRef : Type := option positive.
Definition RocksDBSnapshotRef : Type := option positive.
Definition RocksDBOptionsRef : Type := option rocksdb.Options.
Definition RocksDBReadOptionsRef : Type := option rocksdb.ReadOptions.
Definition RocksDBWriteOptionsRef : Type := option rocksdb.WriteOptions.

(** [opts->options] in the open functions, which do not test [opts]. *)
Definition options_of (opts : RocksDBOptionsRef) : M rocksdb.Options :=
  match opts with
  | Some o => mret o
  | None => undefined
  end.

(** [rocksdb::ReadOptions readOpts; if (opts) readOpts = opts->options;] *)
Definition readOpts (opts : RocksDBReadOptionsRef) : rocksdb.ReadOptions :=
  match opts with
  | Some o => o
  | None => rocksdb.ReadOptions_default
  end.

Definition writeOpts (opts : RocksDBWriteOptionsRef) : rocksdb.WriteOptions :=
  match opts with
  | Some o => o
  | None => rocksdb.WriteOptions_default
  end.

(** The test [!db || !db->db]: [None] when it holds, else [db->db]. *)
Definition checked_db (db_ref : RocksDBRef) : M (option rocksdb.DB) :=
  match db_ref with
  | None => mret None
  | Some p => h ← load db_kind p; mret (db h)
  end.

(** The test [!iter || !iter->iter]. *)
Definition checked_iter (it : RocksDBIteratorRef)
  : M (option rocksdb.Iterator) :=
  match it with
  | None => mret None
  | Some p => h ← load iterator_kind p; mret (iter h)
  end.

(** The test [!txn || !txn->txn]. *)
Definition checked_txn (t : RocksDBTransactionRef)
  : M (option rocksdb.Transaction) :=
  match t with
  | None => mret None
  | Some p => h ← load transaction_kind p; mret (txn h)
  end.

(** ** Database operations *)

(** [~RocksDBHandle()]. *)
Definition destroy_RocksDBHandle (h : RocksDBHandle) : M unit :=
  match is_transactional h, txn_db h with
  | true, Some t => update (rocksdb.delete_OptimisticTransactionDB t)
  | _, _ =>
      match db h with
      | Some d => update (rocksdb.delete_DB d)
      | None => mret tt
      end
  end.

(** [delete handle] on a non-null [RocksDBHandle*]. *)
Definition delete_RocksDBHandle (p : positive) : M unit :=
  h ← load db_kind p;
  destroy_RocksDBHandle h;;
  release db_kind p.

(** The result pairs the status with the value stored in [*db_out]. *)
Definition rocksdb_open (path : string) (opts : RocksDBOptionsRef)
  : M (RocksDBStatus * RocksDBRef) :=
  handle ← new db_kind (mkHandle None None false);
  o ← options_of opts;
  '(s, d) ← call (rocksdb.DB_Open o path);
  store db_kind handle (mkHandle d None false);;
  if rocksdb.ok s then
    mret (make_status s, Some handle)
  else
    delete_RocksDBHandle handle;;
    mret (make_status s, None).

Definition rocksdb_open_for_read_only (path : string)
    (opts : RocksDBOptionsRef) (error_if_wal_exists : Z)
  : M (RocksDBStatus * RocksDBRef) :=
  handle ← new db_kind (mkHandle None None false);
  o ← options_of opts;
  '(s, d) ← call (rocksdb.DB_OpenForReadOnly o path
                    (negb (error_if_wal_exists =? 0)%Z));
  store db_kind handle (mkHandle d None false);;
  if rocksdb.ok s then
    mret (make_status s, Some handle)
  else
    delete_RocksDBHandle handle;;
    mret (make_status s, None).

Definition rocksdb_open_transactional (path : string)
    (opts : RocksDBOptionsRef)
  : M (RocksDBStatus * RocksDBRef) :=
  handle ← new db_kind (mkHandle None None false);
  store db_kind handle (mkHandle None None true);;
  o ← options_of opts;
  '(s, t) ← call (rocksdb.OptimisticTransactionDB_Open o path);
  store db_kind handle (mkHandle None t true);;
  if rocksdb.ok s then
    match t with
    | Some t' =>
        base ← query (rocksdb.GetBaseDB t');
        store db_kind handle (mkHandle base t true);;
        mret (make_status s, Some handle)
    | None => undefined
    end
  else
    delete_RocksDBHandle handle;;
    mret (make_status s, None).

Definition rocksdb_close (db_ref : RocksDBRef) : M unit :=
  match db_ref with
  | None => mret tt
  | Some p => delete_RocksDBHandle p
  end.

Definition rocksdb_is_transactional (db_ref : RocksDBRef) : M Z :=
  match db_ref with
  | None => mret 0%Z
  | Some p =>
      h ← load db_kind p;
      mret (if is_transactional h then 1%Z else 0%Z)
  end.

(** ** Key-value operations *)

Definition rocksdb_put (db_ref : RocksDBRef) (opts : RocksDBWriteOptionsRef)
    (key : cptr) (key_len : N) (value : cptr) (value_len : N)
  : M RocksDBStatus :=
  d ← checked_db db_ref;
  match d with
  | None => mret (invalid_argument "Database is null")
  | Some d =>
      s ← call (rocksdb.Put d (writeOpts opts)
                  (mkSlice key key_len) (mkSlice value value_len));
      mret (make_status s)
  end.

(** The result is the status with the final [*value_out] (null or a block
    from [malloc]) and [*value_len_out]. *)
Definition rocksdb_get (db_ref : RocksDBRef) (opts : RocksDBReadOptionsRef)
    (key : cptr) (key_len : N)
  : M (RocksDBStatus * option positive * N) :=
  d ← checked_db db_ref;
  match d with
  | None => mret (invalid_argument "Database is null", None, 0%N)
  | Some d =>
      '(s, value) ← call (rocksdb.Get d (readOpts opts)
                            (mkSlice key key_len));
      if rocksdb.ok s then
        value_out ← malloc (size value);
        match value_out with
        | Some p => memcpy p value (size value)
        | None => mret tt
        end;;
        mret (make_status s, value_out, size value)
      else
        mret (make_status s, None, 0%N)
  end.

Definition rocksdb_delete (db_ref : RocksDBRef)
    (opts : RocksDBWriteOptionsRef) (key : cptr) (key_len : N)
  : M RocksDBStatus :=
  d ← checked_db db_ref;
  match d with
  | None => mret (invalid_argument "Database is null")
  | Some d =>
      s ← call (rocksdb.Delete d (writeOpts opts) (mkSlice key key_len));
      mret (make_status s)
  end.

Definition rocksdb_key_may_exist (db_ref : RocksDBRef)
    (opts : RocksDBReadOptionsRef) (key : cptr) (key_len : N) : M Z :=
  d ← checked_db db_ref;
  match d with
  | None => mret 0%Z
  | Some d =>
      b ← call (rocksdb.KeyMayExist d (readOpts opts) (mkSlice key key_len));
      mret (if b : bool then 1%Z else 0%Z)
  end.

(** ** Batch operations *)

Definition rocksdb_batch_create : M RocksDBBatchRef :=
  p ← new batch_kind (mkBatchHandle rocksdb.WriteBatch_new);
  mret (Some p).

Definition rocksdb_batch_destroy (b : RocksDBBatchRef) : M unit :=
  match b with
  | None => mret tt
  | Some p => release batch_kind p
  end.

(** [if (batch) { batch->batch.f(...) }] *)
Definition on_batch (b : RocksDBBatchRef)
    (f : rocksdb.WriteBatch → rocksdb.WriteBatch) : M unit :=
  match b with
  | None => mret tt
  | Some p =>
      h ← load batch_kind p;
      store batch_kind p (mkBatchHandle (f (batch h)))
  end.

Definition rocksdb_batch_put (b : RocksDBBatchRef)
    (key : cptr) (key_len : N) (value : cptr) (value_len : N) : M unit :=
  on_batch b (λ wb, rocksdb.WriteBatch_Put wb
                      (mkSlice key key_len) (mkSlice value value_len)).

Definition rocksdb_batch_delete (b : RocksDBBatchRef)
    (key : cptr) (key_len : N) : M unit :=
  on_batch b (λ wb, rocksdb.WriteBatch_Delete wb (mkSlice key key_len)).

Definition rocksdb_batch_delete_range (b : RocksDBBatchRef)
    (start_key : cptr) (start_key_len : N)
    (end_key : cptr) (end_key_len : N) : M unit :=
  on_batch b (λ wb, rocksdb.WriteBatch_DeleteRange wb
                      (mkSlice start_key start_key_len)
                      (mkSlice end_key end_key_len)).

Definition rocksdb_batch_clear (b : RocksDBBatchRef) : M unit :=
  on_batch b rocksdb.WriteBatch_Clear.

Definition rocksdb_batch_count (b : RocksDBBatchRef) : M N :=
  match b with
  | None => mret 0%N
  | Some p => h ← load batch_kind p; mret (rocksdb.WriteBatch_Count (batch h))
  end.

Definition rocksdb_batch_data_size (b : RocksDBBatchRef) : M N :=
  match b with
  | None => mret 0%N
  | Some p =>
      h ← load batch_kind p;
      mret (rocksdb.WriteBatch_GetDataSize (batch h))
  end.

Definition rocksdb_write_batch (db_ref : RocksDBRef)
    (opts : RocksDBWriteOptionsRef) (b : RocksDBBatchRef)
  : M RocksDBStatus :=
  d ← checked_db db_ref;
  match d, b with
  | Some d, Some p =>
      h ← load batch_kind p;
      s ← call (rocksdb.DB_Write d (writeOpts opts) (batch h));
      mret (make_status s)
  | _, _ => mret (invalid_argument "Database or batch is null")
  end.

(** ** Iterator operations *)

Definition rocksdb_iterator_create (db_ref : RocksDBRef)
    (opts : RocksDBReadOptionsRef) : M RocksDBIteratorRef :=
  d ← checked_db db_ref;
  match d with
  | None => mret None
  | Some d =>
      handle ← new iterator_kind (mkIteratorHandle None);
      i ← call (rocksdb.NewIterator d (readOpts opts));
      store iterator_kind handle (mkIteratorHandle i);;
      mret (Some handle)
  end.

(** [delete iter]: the destructor deletes [iter->iter], and deleting a
    null pointer does nothing. *)
Definition rocksdb_iterator_destroy (it : RocksDBIteratorRef) : M unit :=
  match it with
  | None => mret tt
  | Some p =>
      h ← load iterator_kind p;
      match iter h with
      | Some i => update (rocksdb.delete_Iterator i)
      | None => mret tt
      end;;
      release iterator_kind p
  end.

Definition rocksdb_iterator_valid (it : RocksDBIteratorRef) : M Z :=
  i ← checked_iter it;
  match i with
  | None => mret 0%Z
  | Some i =>
      v ← query (rocksdb.Valid i);
      mret (if v : bool then 1%Z else 0%Z)
  end.

(** [if (iter && iter->iter) { iter->iter->f(); }] *)
Definition on_iter (it : RocksDBIteratorRef) (m : IterMove) : M unit :=
  i ← checked_iter it;
  match i with
  | None => mret tt
  | Some i => update (rocksdb.Iterator_move m i)
  end.

Definition rocksdb_iterator_seek_to_first (it : RocksDBIteratorRef)
  : M unit := on_iter it SeekToFirst.

Definition rocksdb_iterator_seek_to_last (it : RocksDBIteratorRef)
  : M unit := on_iter it SeekToLast.

Definition rocksdb_iterator_seek (it : RocksDBIteratorRef)
    (key : cptr) (key_len : N) : M unit :=
  on_iter it (Seek (mkSlice key key_len)).

Definition rocksdb_iterator_seek_for_prev (it : RocksDBIteratorRef)
    (key : cptr) (key_len : N) : M unit :=
  on_iter it (SeekForPrev (mkSlice key key_len)).

Definition rocksdb_iterator_next (it : RocksDBIteratorRef) : M unit :=
  on_iter it Next.

Definition rocksdb_iterator_prev (it : RocksDBIteratorRef) : M unit :=
  on_iter it Prev.

(** The result is the returned pointer with the value of [*len_out]. *)
Definition rocksdb_iterator_key (it : RocksDBIteratorRef) : M (cptr * N) :=
  i ← checked_iter it;
  match i with
  | None => mret (None, 0%N)
  | Some i =>
      v ← query (rocksdb.Valid i);
      if v : bool then
        k ← query (rocksdb.key i);
        mret (data_ k, size_ k)
      else mret (None, 0%N)
  end.

Definition rocksdb_iterator_value (it : RocksDBIteratorRef) : M (cptr * N) :=
  i ← checked_iter it;
  match i with
  | None => mret (None, 0%N)
  | Some i =>
      v ← query (rocksdb.Valid i);
      if v : bool then
        k ← query (rocksdb.value i);
        mret (data_ k, size_ k)
      else mret (None, 0%N)
  end.

Definition rocksdb_iterator_status (it : RocksDBIteratorRef)
  : M RocksDBStatus :=
  i ← checked_iter it;
  match i with
  | None => mret (invalid_argument "Iterator is null")
  | Some i =>
      s ← query (rocksdb.status i);
      mret (make_status s)
  end.

(** ** Transaction operations *)

Definition rocksdb_transaction_begin (db_ref : RocksDBRef)
    (opts : RocksDBWriteOptionsRef) : M RocksDBTransactionRef :=
  match db_ref with
  | None => mret None
  | Some p =>
      h ← load db_kind p;
      match is_transactional h, txn_db h with
      | true, Some tdb =>
          handle ← new transaction_kind (mkTransactionHandle None);
          t ← call (rocksdb.BeginTransaction tdb (writeOpts opts));
          store transaction_kind handle (mkTransactionHandle t);;
          mret (Some handle)
      | _, _ => mret None
      end
  end.

Definition rocksdb_transaction_destroy (t : RocksDBTransactionRef)
  : M unit :=
  match t with
  | None => mret tt
  | Some p =>
      h ← load transaction_kind p;
      match txn h with
      | Some t' => update (rocksdb.delete_Transaction t')
      | None => mret tt
      end;;
      release transaction_kind p
  end.

Definition rocksdb_transaction_put (t : RocksDBTransactionRef)
    (key : cptr) (key_len : N) (value : cptr) (value_len : N)
  : M RocksDBStatus :=
  t' ← checked_txn t;
  match t' with
  | None => mret (invalid_argument "Transaction is null")
  | Some t' =>
      s ← call (rocksdb.Transaction_Put t'
                  (mkSlice key key_len) (mkSlice value value_len));
      mret (make_status s)
  end.

(** The body shared by [rocksdb_transaction_get] and
    [rocksdb_transaction_get_for_update], which differ in the engine call. *)
Definition transaction_read
    (read : rocksdb.Transaction → rocksdb.ReadOptions → Slice →
            rocksdb.world → rocksdb.Status * string * rocksdb.world)
    (t : RocksDBTransactionRef) (opts : RocksDBReadOptionsRef)
    (key : cptr) (key_len : N)
  : M (RocksDBStatus * option positive * N) :=
  t' ← checked_txn t;
  match t' with
  | None => mret (invalid_argument "Transaction is null", None, 0%N)
  | Some t' =>
      '(s, value) ← call (read t' (readOpts opts) (mkSlice key key_len));
      if rocksdb.ok s then
        value_out ← malloc (size value);
        match value_out with
        | Some p => memcpy p value (size value)
        | None => mret tt
        end;;
        mret (make_status s, value_out, size value)
      else
        mret (make_status s, None, 0%N)
  end.

Definition rocksdb_transaction_get :=
  transaction_read rocksdb.Transaction_Get.

Definition rocksdb_transaction_get_for_update :=
  transaction_read rocksdb.Transaction_GetForUpdate.

Definition rocksdb_transaction_delete (t : RocksDBTransactionRef)
    (key : cptr) (key_len : N) : M RocksDBStatus :=
  t' ← checked_txn t;
  match t' with
  | None => mret (invalid_argument "Transaction is null")
  | Some t' =>
      s ← call (rocksdb.Transaction_Delete t' (mkSlice key key_len));
      mret (make_status s)
  end.

Definition rocksdb_transaction_create_iterator (t : RocksDBTransactionRef)
    (opts : RocksDBReadOptionsRef) : M RocksDBIteratorRef :=
  t' ← checked_txn t;
  match t' with
  | None => mret None
  | Some t' =>
      handle ← new iterator_kind (mkIteratorHandle None);
      i ← call (rocksdb.Transaction_GetIterator t' (readOpts opts));
      store iterator_kind handle (mkIteratorHandle i);;
      mret (Some handle)
  end.

Definition rocksdb_transaction_commit (t : RocksDBTransactionRef)
  : M RocksDBStatus :=
  t' ← checked_txn t;
  match t' with
  | None => mret (invalid_argument "Transaction is null")
  | Some t' =>
      s ← call (rocksdb.Transaction_Commit t');
      mret (make_status s)
  end.

Definition rocksdb_transaction_rollback (t : RocksDBTransactionRef)
  : M unit :=
  t' ← checked_txn t;
  match t' with
  | None => mret tt
  | Some t' => call (rocksdb.Transaction_Rollback t');; mret tt
  end.

Definition rocksdb_transaction_set_savepoint (t : RocksDBTransactionRef)
  : M unit :=
  t' ← checked_txn t;
  match t' with
  | None => mret tt
  | Some t' => update (rocksdb.Transaction_SetSavePoint t')
  end.

Definition rocksdb_transaction_rollback_to_savepoint
    (t : RocksDBTransactionRef) : M RocksDBStatus :=
  t' ← checked_txn t;
  match t' with
  | None => mret (invalid_argument "Transaction is null")
  | Some t' =>
      s ← call (rocksdb.Transaction_RollbackToSavePoint t');
      mret (make_status s)
  end.

(** ** Snapshot operations *)

Definition rocksdb_create_snapshot (db_ref : RocksDBRef)
  : M RocksDBSnapshotRef :=
  d ← checked_db db_ref;
  match d with
  | None => mret None
  | Some d =>
      handle ← new snapshot_kind (mkSnapshotHandle None);
      sn ← call (rocksdb.GetSnapshot d);
      store snapshot_kind handle (mkSnapshotHandle sn);;
      mret (Some handle)
  end.

Definition rocksdb_release_snapshot (db_ref : RocksDBRef)
    (sn : RocksDBSnapshotRef) : M unit :=
  d ← checked_db db_ref;
  match sn with
  | None => mret tt
  | Some p =>
      h ← load snapshot_kind p;
      match d, snapshot h with
      | Some d, Some s => update (rocksdb.ReleaseSnapshot d s)
      | _, _ => mret tt
      end;;
      release snapshot_kind p
  end.

(** ** Maintenance operations *)

(** [if (key && key_len > 0) { slice = Slice(key, key_len); p = &slice; }]
    starting from [p = nullptr]. *)
Definition bound (key : cptr) (key_len : N) : option Slice :=
  match key with
  | Some _ => if (0 <? key_len)%N then Some (mkSlice key key_len) else None
  | None => None
  end.

Definition rocksdb_compact_range (db_ref : RocksDBRef)
    (start_key : cptr) (start_key_len : N)
    (end_key : cptr) (end_key_len : N) : M RocksDBStatus :=
  d ← checked_db db_ref;
  match d with
  | None => mret (invalid_argument "Database is null")
  | Some d =>
      s ← call (rocksdb.CompactRange d
                  (bound start_key start_key_len)
                  (bound end_key end_key_len));
      mret (make_status s)
  end.

Definition rocksdb_flush (db_ref : RocksDBRef) (wait : Z)
  : M RocksDBStatus :=
  d ← checked_db db_ref;
  match d with
  | None => mret (invalid_argument "Database is null")
  | Some d =>
      s ← call (rocksdb.Flush d (negb (wait =? 0)%Z));
      mret (make_status s)
  end.

Definition rocksdb_get_property (db_ref : RocksDBRef) (property : string)
  : M cptr :=
  d ← checked_db db_ref;
  match d with
  | None => mret None
  | Some d =>
      '(found, value) ← query (rocksdb.GetProperty d property);
      if found : bool then mret (strdup value) else mret None
  end.

(** The loop [for (int i = 0; i < num_ranges; i++) ranges.emplace_back(...)]
    with [todo] iterations left; reading an array past its end is
    undefined. *)
Fixpoint collect_ranges (todo : nat) (i : nat) (ranges : list Range)
    (start_keys : list cptr) (start_key_lens : list N)
    (end_keys : list cptr) (end_key_lens : list N) : option (list Range) :=
  match todo with
  | O => Some ranges
  | S todo' =>
      match start_keys !! i, start_key_lens !! i,
            end_keys !! i, end_key_lens !! i with
      | Some sk, Some sl, Some ek, Some el =>
          collect_ranges todo' (S i)
            (ranges ++ [mkRange (mkSlice sk sl) (mkSlice ek el)])
            start_keys start_key_lens end_keys end_key_lens
      | _, _, _, _ => None
      end
  end.

(** [db->GetApproximateSizes(ranges, n, sizes)] from index [i] on: the
    engine stores [sizes[i]] for each of the [n] ranges; a store past the
    end of [sizes] is undefined. *)
Fixpoint store_sizes (d : rocksdb.DB) (w : rocksdb.world)
    (ranges : list Range) (i : nat) (sizes : list N) : option (list N) :=
  match ranges with
  | [] => Some sizes
  | r :: rest =>
      if decide (i < length sizes)%nat then
        store_sizes d w rest (S i)
          (<[i := rocksdb.ApproximateSize d r w]> sizes)
      else None
  end.

(** [sizes_out] is the caller's array; the result is the array after the
    call. *)
Definition rocksdb_get_approximate_sizes (db_ref : RocksDBRef)
    (num_ranges : Z)
    (start_keys : list cptr) (start_key_lens : list N)
    (end_keys : list cptr) (end_key_lens : list N)
    (sizes_out : list N) : M (list N) :=
  d ← checked_db db_ref;
  match d with
  | None => mret sizes_out
  | Some d =>
      if (num_ranges <=? 0)%Z then mret sizes_out
      else
        match collect_ranges (Z.to_nat num_ranges) 0 []
                start_keys start_key_lens end_keys end_key_lens with
        | None => undefined
        | Some ranges =>
            w ← query id;
            match store_sizes d w
                    (take (Z.to_nat num_ranges) ranges) 0 sizes_out with
            | None => undefined
            | Some sizes => mret sizes
            end
        end
  end.

(** ** The operations as one interface

    Every function of [RocksDBBridge.h] that takes a database, batch,
    iterator or transaction handle, and the three open functions.  (The
    functions left out take none of these: [rocksdb_batch_create], the
    two free functions and the option builders.) *)
Inductive Call : Type :=
| c_open (path : string) (opts : RocksDBOptionsRef)
| c_open_for_read_only (path : string) (opts : RocksDBOptionsRef)
    (error_if_wal_exists : Z)
| c_open_transactional (path : string) (opts : RocksDBOptionsRef)
| c_close (db_ref : RocksDBRef)
| c_is_transactional (db_ref : RocksDBRef)
| c_put (db_ref : RocksDBRef) (opts : RocksDBWriteOptionsRef)
    (key : cptr) (key_len : N) (value : cptr) (value_len : N)
| c_get (db_ref : RocksDBRef) (opts : RocksDBReadOptionsRef)
    (key : cptr) (key_len : N)
| c_delete (db_ref : RocksDBRef) (opts : RocksDBWriteOptionsRef)
    (key : cptr) (key_len : N)
| c_key_may_exist (db_ref : RocksDBRef) (opts : RocksDBReadOptionsRef)
    (key : cptr) (key_len : N)
| c_batch_destroy (b : RocksDBBatchRef)
| c_batch_put (b : RocksDBBatchRef)
    (key : cptr) (key_len : N) (value : cptr) (value_len : N)
| c_batch_delete (b : RocksDBBatchRef) (key : cptr) (key_len : N)
| c_batch_delete_range (b : RocksDBBatchRef)
    (start_key : cptr) (start_key_len : N)
    (end_key : cptr) (end_key_len : N)
| c_batch_clear (b : RocksDBBatchRef)
| c_batch_count (b : RocksDBBatchRef)
| c_batch_data_size (b : RocksDBBatchRef)
| c_write_batch (db_ref : RocksDBRef) (opts : RocksDBWriteOptionsRef)
    (b : RocksDBBatchRef)
| c_iterator_create (db_ref : RocksDBRef) (opts : RocksDBReadOptionsRef)
| c_iterator_destroy (it : RocksDBIteratorRef)
| c_iterator_valid (it : RocksDBIteratorRef)
| c_iterator_seek_to_first (it : RocksDBIteratorRef)
| c_iterator_seek_to_last (it : RocksDBIteratorRef)
| c_iterator_seek (it : RocksDBIteratorRef) (key : cptr) (key_len : N)
| c_iterator_seek_for_prev (it : RocksDBIteratorRef)
    (key : cptr) (key_len : N)
| c_iterator_next (it : RocksDBIteratorRef)
| c_iterator_prev (it : RocksDBIteratorRef)
| c_iterator_key (it : RocksDBIteratorRef)
| c_iterator_value (it : RocksDBIteratorRef)
| c_iterator_status (it : RocksDBIteratorRef)
| c_transaction_begin (db_ref : RocksDBRef) (opts : RocksDBWriteOptionsRef)
| c_transaction_destroy (t : RocksDBTransactionRef)
| c_transaction_put (t : RocksDBTransactionRef)
    (key : cptr) (key_len : N) (value : cptr) (value_len : N)
| c_transaction_get (t : RocksDBTransactionRef)
    (opts : RocksDBReadOptionsRef) (key : cptr) (key_len : N)
| c_transaction_get_for_update (t : RocksDBTransactionRef)
    (opts : RocksDBReadOptionsRef) (key : cptr) (key_len : N)
| c_transaction_delete (t : RocksDBTransactionRef)
    (key : cptr) (key_len : N)
| c_transaction_create_iterator (t : RocksDBTransactionRef)
    (opts : RocksDBReadOptionsRef)
| c_transaction_commit (t : RocksDBTransactionRef)
| c_transaction_rollback (t : RocksDBTransactionRef)
| c_transaction_set_savepoint (t : RocksDBTransactionRef)
| c_transaction_rollback_to_savepoint (t : RocksDBTransactionRef)
| c_create_snapshot (db_ref : RocksDBRef)
| c_release_snapshot (db_ref : RocksDBRef) (sn : RocksDBSnapshotRef)
| c_compact_range (db_ref : RocksDBRef)
    (start_key : cptr) (start_key_len : N)
    (end_key : cptr) (end_key_len : N)
| c_flush (db_ref : RocksDBRef) (wait : Z)
| c_get_property (db_ref : RocksDBRef) (property : string)
| c_get_approximate_sizes (db_ref : RocksDBRef) (num_ranges : Z)
    (start_keys : list cptr) (start_key_lens : list N)
    (end_keys : list cptr) (end_key_lens : list N) (sizes_out : list N).

(** What a call hands back, by return type: a [RocksDBStatus] (with the
    out-parameters of the call, if any), or a value that is no status. *)
Inductive Outcome : Type :=
| Returned (s : RocksDBStatus)
| ReturnedDb (s : RocksDBStatus) (db_out : RocksDBRef)
| ReturnedValue (s : RocksDBStatus) (value_out : option positive)
    (value_len_out : N)
| Void
| Int (z : Z)
| Size (n : N)
| Ref (p : option positive)
| Chars (p : cptr)
| Bytes (p : cptr) (len_out : N)
| Sizes (sizes_out : list N).

Definition status_of (o : Outcome) : option RocksDBStatus :=
  match o with
  | Returned s | ReturnedDb s _ | ReturnedValue s _ _ => Some s
  | _ => None
  end.

Definition run (c : Call) : M Outcome :=
  match c with
  | c_open path opts =>
      '(s, d) ← rocksdb_open path opts; mret (ReturnedDb s d)
  | c_open_for_read_only path opts e =>
      '(s, d) ← rocksdb_open_for_read_only path opts e; mret (ReturnedDb s d)
  | c_open_transactional path opts =>
      '(s, d) ← rocksdb_open_transactional path opts; mret (ReturnedDb s d)
  | c_close d => rocksdb_close d;; mret Void
  | c_is_transactional d => z ← rocksdb_is_transactional d; mret (Int z)
  | c_put d o k kl v vl => s ← rocksdb_put d o k kl v vl; mret (Returned s)
  | c_get d o k kl =>
      '(s, p, n) ← rocksdb_get d o k kl; mret (ReturnedValue s p n)
  | c_delete d o k kl => s ← rocksdb_delete d o k kl; mret (Returned s)
  | c_key_may_exist d o k kl =>
      z ← rocksdb_key_may_exist d o k kl; mret (Int z)
  | c_batch_destroy b => rocksdb_batch_destroy b;; mret Void
  | c_batch_put b k kl v vl => rocksdb_batch_put b k kl v vl;; mret Void
  | c_batch_delete b k kl => rocksdb_batch_delete b k kl;; mret Void
  | c_batch_delete_range b sk sl ek el =>
      rocksdb_batch_delete_range b sk sl ek el;; mret Void
  | c_batch_clear b => rocksdb_batch_clear b;; mret Void
  | c_batch_count b => n ← rocksdb_batch_count b; mret (Size n)
  | c_batch_data_size b => n ← rocksdb_batch_data_size b; mret (Size n)
  | c_write_batch d o b => s ← rocksdb_write_batch d o b; mret (Returned s)
  | c_iterator_create d o => p ← rocksdb_iterator_create d o; mret (Ref p)
  | c_iterator_destroy i => rocksdb_iterator_destroy i;; mret Void
  | c_iterator_valid i => z ← rocksdb_iterator_valid i; mret (Int z)
  | c_iterator_seek_to_first i => rocksdb_iterator_seek_to_first i;; mret Void
  | c_iterator_seek_to_last i => rocksdb_iterator_seek_to_last i;; mret Void
  | c_iterator_seek i k kl => rocksdb_iterator_seek i k kl;; mret Void
  | c_iterator_seek_for_prev i k kl =>
      rocksdb_iterator_seek_for_prev i k kl;; mret Void
  | c_iterator_next i => rocksdb_iterator_next i;; mret Void
  | c_iterator_prev i => rocksdb_iterator_prev i;; mret Void
  | c_iterator_key i => '(p, n) ← rocksdb_iterator_key i; mret (Bytes p n)
  | c_iterator_value i =>
      '(p, n) ← rocksdb_iterator_value i; mret (Bytes p n)
  | c_iterator_status i => s ← rocksdb_iterator_status i; mret (Returned s)
  | c_transaction_begin d o =>
      p ← rocksdb_transaction_begin d o; mret (Ref p)
  | c_transaction_destroy t => rocksdb_transaction_destroy t;; mret Void
  | c_transaction_put t k kl v vl =>
      s ← rocksdb_transaction_put t k kl v vl; mret (Returned s)
  | c_transaction_get t o k kl =>
      '(s, p, n) ← rocksdb_transaction_get t o k kl;
      mret (ReturnedValue s p n)
  | c_transaction_get_for_update t o k kl =>
      '(s, p, n) ← rocksdb_transaction_get_for_update t o k kl;
      mret (ReturnedValue s p n)
  | c_transaction_delete t k kl =>
      s ← rocksdb_transaction_delete t k kl; mret (Returned s)
  | c_transaction_create_iterator t o =>
      p ← rocksdb_transaction_create_iterator t o; mret (Ref p)
  | c_transaction_commit t =>
      s ← rocksdb_transaction_commit t; mret (Returned s)
  | c_transaction_rollback t => rocksdb_transaction_rollback t;; mret Void
  | c_transaction_set_savepoint t =>
      rocksdb_transaction_set_savepoint t;; mret Void
  | c_transaction_rollback_to_savepoint t =>
      s ← rocksdb_transaction_rollback_to_savepoint t; mret (Returned s)
  | c_create_snapshot d => p ← rocksdb_create_snapshot d; mret (Ref p)
  | c_release_snapshot d sn => rocksdb_release_snapshot d sn;; mret Void
  | c_compact_range d sk sl ek el =>
      s ← rocksdb_compact_range d sk sl ek el; mret (Returned s)
  | c_flush d w => s ← rocksdb_flush d w; mret (Returned s)
  | c_get_property d p => v ← rocksdb_get_property d p; mret (Chars v)
  | c_get_approximate_sizes d n sk sl ek el out =>
      sizes ← rocksdb_get_approximate_sizes d n sk sl ek el out;
      mret (Sizes sizes)
  end.

(** Whether a handle argument of the call is the null pointer
    ([rocksdb_write_batch] and [rocksdb_release_snapshot] take two
    handles). *)
Definition null_handle (c : Call) : bool :=
  match c with
  | c_open _ _ | c_open_for_read_only _ _ _ | c_open_transactional _ _ =>
      false
  | c_close h | c_is_transactional h | c_put h _ _ _ _ _ | c_get h _ _ _
  | c_delete h _ _ _ | c_key_may_exist h _ _ _
  | c_batch_destroy h | c_batch_put h _ _ _ _ | c_batch_delete h _ _
  | c_batch_delete_range h _ _ _ _ | c_batch_clear h | c_batch_count h
  | c_batch_data_size h
  | c_iterator_create h _ | c_iterator_destroy h | c_iterator_valid h
  | c_iterator_seek_to_first h | c_iterator_seek_to_last h
  | c_iterator_seek h _ _ | c_iterator_seek_for_prev h _ _
  | c_iterator_next h | c_iterator_prev h | c_iterator_key h
  | c_iterator_value h | c_iterator_status h
  | c_transaction_begin h _ | c_transaction_destroy h
  | c_transaction_put h _ _ _ _ | c_transaction_get h _ _ _
  | c_transaction_get_for_update h _ _ _ | c_transaction_delete h _ _
  | c_transaction_create_iterator h _ | c_transaction_commit h
  | c_transaction_rollback h | c_transaction_set_savepoint h
  | c_transaction_rollback_to_savepoint h
  | c_create_snapshot h | c_compact_range h _ _ _ _ | c_flush h _
  | c_get_property h _ | c_get_approximate_sizes h _ _ _ _ _ _ =>
      bool_decide (h = None)
  | c_write_batch d _ b => bool_decide (d = None) || bool_decide (b = None)
  | c_release_snapshot d sn =>
      bool_decide (d = None) || bool_decide (sn = None)
  end.

(** Whether the function's return type is [RocksDBStatus]. *)
Definition returns_status (c : Call) : bool :=
  match c with
  | c_open _ _ | c_open_for_read_only _ _ _ | c_open_transactional _ _
  | c_put _ _ _ _ _ _ | c_get _ _ _ _ | c_delete _ _ _ _
  | c_write_batch _ _ _ | c_iterator_status _
  | c_transaction_put _ _ _ _ _ | c_transaction_get _ _ _ _
  | c_transaction_get_for_update _ _ _ _ | c_transaction_delete _ _ _
  | c_transaction_commit _ | c_transaction_rollback_to_savepoint _
  | c_compact_range _ _ _ _ _ | c_flush _ _ => true
  | _ => false
  end.

(** ** Vocabulary of the properties *)

(** The three ways to open a database. *)
Inductive OpenMode : Type :=
| ReadWrite
| ReadOnly (error_if_wal_exists : Z)
| Transactional.

Definition open_in (mode : OpenMode) (path : string)
    (opts : RocksDBOptionsRef) : M (RocksDBStatus * RocksDBRef) :=
  match mode with
  | ReadWrite => rocksdb_open path opts
  | ReadOnly e => rocksdb_open_for_read_only path opts e
  | Transactional => rocksdb_open_transactional path opts
  end.

(** What each operation hands back from the branch that tests its handle
    for null. *)
Definition null_result (c : Call) : Outcome :=
  match c with
  | c_put _ _ _ _ _ _ | c_delete _ _ _ _ | c_compact_range _ _ _ _ _
  | c_flush _ _ =>
      Returned (invalid_argument "Database is null")
  | c_get _ _ _ _ =>
      ReturnedValue (invalid_argument "Database is null") None 0
  | c_write_batch _ _ _ =>
      Returned (invalid_argument "Database or batch is null")
  | c_iterator_status _ =>
      Returned (invalid_argument "Iterator is null")
  | c_transaction_put _ _ _ _ _ | c_transaction_delete _ _ _
  | c_transaction_commit _ | c_transaction_rollback_to_savepoint _ =>
      Returned (invalid_argument "Transaction is null")
  | c_transaction_get _ _ _ _ | c_transaction_get_for_update _ _ _ _ =>
      ReturnedValue (invalid_argument "Transaction is null") None 0
  | c_is_transactional _ | c_key_may_exist _ _ _ _ | c_iterator_valid _ =>
      Int 0
  | c_batch_count _ | c_batch_data_size _ => Size 0
  | c_iterator_create _ _ | c_transaction_begin _ _
  | c_transaction_create_iterator _ _ | c_create_snapshot _ => Ref None
  | c_iterator_key _ | c_iterator_value _ => Bytes None 0
  | c_get_property _ _ => Chars None
  | c_get_approximate_sizes _ _ _ _ _ _ sizes_out => Sizes sizes_out
  | _ => Void
  end.

(** An outcome that reports [InvalidArgument] with a message that is not
    empty. *)
Definition rejected (o : Outcome) : Prop :=
  ∃ r text, status_of o = Some r
            ∧ code r = RocksDBStatusInvalidArgument
            ∧ message r = Some text ∧ text ≠ EmptyString.

(** [rocksdb_write_batch] and [rocksdb_release_snapshot] read the
    database handle before they test their second handle: a database
    handle that is not null has to be live.  [rocksdb_release_snapshot]
    deletes the snapshot handle whatever the database handle is: a
    snapshot handle that is not null has to be live. *)
Definition handles_usable (st : State) (c : Call) : Prop :=
  match c with
  | c_write_batch (Some p) _ _ => is_Some (db_handles st !! p)
  | c_release_snapshot (Some p) _ => is_Some (db_handles st !! p)
  | c_release_snapshot None (Some q) => is_Some (snapshot_handles st !! q)
  | _ => True
  end.

(** The snapshot handle an operation deletes whatever its database
    handle is: [rocksdb_release_snapshot] runs [delete snapshot] outside
    the test of [db]. *)
Definition released_snapshot (c : Call) : RocksDBSnapshotRef :=
  match c with
  | c_release_snapshot _ sn => sn
  | _ => None
  end.

(** The message is there exactly when the code is not [OK]. *)
Definition message_iff_not_ok (r : RocksDBStatus) : Prop :=
  (is_Some (message r) ↔ code r ≠ RocksDBStatusOK)
  ∧ (message r = None ↔ code r = RocksDBStatusOK).

(** The engine's answer to an open in a mode: its status, and the world
    once whatever it stored through the handle has been deleted again. *)
Definition engine_open_undone (mode : OpenMode) (o : rocksdb.Options)
    (path : string) (w : rocksdb.world) : rocksdb.Status * rocksdb.world :=
  match mode with
  | ReadWrite =>
      let '(s, d, w') := rocksdb.DB_Open o path w in
      (s, match d with Some d' => rocksdb.delete_DB d' w' | None => w' end)
  | ReadOnly e =>
      let '(s, d, w') :=
        rocksdb.DB_OpenForReadOnly o path (negb (e =? 0)%Z) w in
      (s, match d with Some d' => rocksdb.delete_DB d' w' | None => w' end)
  | Transactional =>
      let '(s, t, w') := rocksdb.OptimisticTransactionDB_Open o path w in
      (s, match t with
          | Some t' => rocksdb.delete_OptimisticTransactionDB t' w'
          | None => w'
          end)
  end.

(** The range the caller's four arrays describe at index [i]. *)
Definition range_at (start_keys : list cptr) (start_key_lens : list N)
    (end_keys : list cptr) (end_key_lens : list N) (i : nat)
  : option Range :=
  match start_keys !! i, start_key_lens !! i,
        end_keys !! i, end_key_lens !! i with
  | Some sk, Some sl, Some ek, Some el =>
      Some (mkRange (mkSlice sk sl) (mkSlice ek el))
  | _, _, _, _ => None
  end.

(** A database handle that is live and holds an engine database. *)
Definition open_db (st : State) (p : positive) (d : rocksdb.DB) : Prop :=
  ∃ h, db_handles st !! p = Some h ∧ db h = Some d.

(** Every status the operations return is built by [make_status] or is
    an in-place [InvalidArgument]. *)
Inductive produced : RocksDBStatus → Prop :=
| produced_make_status s : produced (make_status s)
| produced_invalid_argument text : produced (invalid_argument text).

End Bridge.

Arguments table {E A} _ _.
Arguments set_table {E A} _ _ _.

(** ** Further vocabulary: what a call may change *)

Section Extensions.

Context {E : rocksdb.Engine}.

(** [st'] differs from [st] in the engine world at most: the same handle
    objects, the same [malloc] blocks. *)
Definition only_engine (st st' : State) : Prop :=
  st' = set_engine (engine st') st.

(** The functions that only read: queries of a handle and of the engine
    through const methods. *)
Definition read_only (c : Call) : bool :=
  match c with
  | c_is_transactional _ | c_batch_count _ | c_batch_data_size _
  | c_iterator_valid _ | c_iterator_key _ | c_iterator_value _
  | c_iterator_status _ | c_get_property _ _
  | c_get_approximate_sizes _ _ _ _ _ _ _ => true
  | _ => false
  end.

(** The functions whose only effect is a call of an engine method that
    returns no object: no [new], [delete], [malloc] or store to a handle
    occurs in their bodies. *)
Definition engine_only (c : Call) : bool :=
  match c with
  | c_put _ _ _ _ _ _ | c_delete _ _ _ _ | c_key_may_exist _ _ _ _
  | c_write_batch _ _ _
  | c_iterator_seek_to_first _ | c_iterator_seek_to_last _
  | c_iterator_seek _ _ _ | c_iterator_seek_for_prev _ _ _
  | c_iterator_next _ | c_iterator_prev _
  | c_transaction_put _ _ _ _ _ | c_transaction_delete _ _ _
  | c_transaction_commit _ | c_transaction_rollback _
  | c_transaction_set_savepoint _ | c_transaction_rollback_to_savepoint _
  | c_compact_range _ _ _ _ _ | c_flush _ _ => true
  | _ => false
  end.

(** The functions that edit a batch. *)
Definition edits_batch (c : Call) : option RocksDBBatchRef :=
  match c with
  | c_batch_put b _ _ _ _ | c_batch_delete b _ _
  | c_batch_delete_range b _ _ _ _ | c_batch_clear b => Some b
  | _ => None
  end.

(** One edit of a batch, with the arguments of the function that makes
    it. *)
Inductive BatchEdit : Type :=
| EditPut (key : cptr) (key_len : N) (value : cptr) (value_len : N)
| EditDelete (key : cptr) (key_len : N)
| EditDeleteRange (start_key : cptr) (start_key_len : N)
    (end_key : cptr) (end_key_len : N)
| EditClear.

(** The bridge function that makes an edit. *)
Definition edit_call (b : RocksDBBatchRef) (e : BatchEdit) : M unit :=
  match e with
  | EditPut k kl v vl => rocksdb_batch_put b k kl v vl
  | EditDelete k kl => rocksdb_batch_delete b k kl
  | EditDeleteRange sk sl ek el => rocksdb_batch_delete_range b sk sl ek el
  | EditClear => rocksdb_batch_clear b
  end.

(** The [rocksdb::WriteBatch] method an edit stands for. *)
Definition edit_batch (wb : rocksdb.WriteBatch) (e : BatchEdit)
  : rocksdb.WriteBatch :=
  match e with
  | EditPut k kl v vl =>
      rocksdb.WriteBatch_Put wb (mkSlice k kl) (mkSlice v vl)
  | EditDelete k kl => rocksdb.WriteBatch_Delete wb (mkSlice k kl)
  | EditDeleteRange sk sl ek el =>
      rocksdb.WriteBatch_DeleteRange wb (mkSlice sk sl) (mkSlice ek el)
  | EditClear => rocksdb.WriteBatch_Clear wb
  end.

(** The calls for a list of edits, one after the other. *)
Fixpoint edit_calls (b : RocksDBBatchRef) (es : list BatchEdit) : M unit :=
  match es with
  | [] => mret tt
  | e :: rest => edit_call b e;; edit_calls b rest
  end.

(** The engine's answer to an open in a mode, with the contents the open
    function leaves in the handle it allocated.  No contents when the
    transactional open answers without a database: the function then
    reads through a null pointer. *)
Definition engine_open (mode : OpenMode) (o : rocksdb.Options)
    (path : string) (w : rocksdb.world)
  : rocksdb.Status * option RocksDBHandle * rocksdb.world :=
  match mode with
  | ReadWrite =>
      let '(s, d, w') := rocksdb.DB_Open o path w in
      (s, Some (mkHandle d None false), w')
  | ReadOnly e =>
      let '(s, d, w') :=
        rocksdb.DB_OpenForReadOnly o path (negb (e =? 0)%Z) w in
      (s, Some (mkHandle d None false), w')
  | Transactional =>
      let '(s, t, w') := rocksdb.OptimisticTransactionDB_Open o path w in
      (s,
       match t with
       | Some t' => Some (mkHandle (rocksdb.GetBaseDB t' w') t true)
       | None => None
       end,
       w')
  end.

(** What [~RocksDBHandle()] does to the engine world. *)
Definition disposed (h : RocksDBHandle) (w : rocksdb.world) : rocksdb.world :=
  match is_transactional h, txn_db h with
  | true, Some t => rocksdb.delete_OptimisticTransactionDB t w
  | _, _ =>
      match db h with
      | Some d => rocksdb.delete_DB d w
      | None => w
      end
  end.

(** What [~RocksDBIteratorHandle()] does to the engine world:
    [delete iter], which does nothing on the null pointer. *)
Definition iterator_disposed (i : option rocksdb.Iterator)
    (w : rocksdb.world) : rocksdb.world :=
  match i with
  | Some i' => rocksdb.delete_Iterator i' w
  | None => w
  end.

Definition is_transactional_mode (mode : OpenMode) : bool :=
  match mode with
  | Transactional => true
  | _ => false
  end.

(** The tail shared by the three point lookups once the engine has
    answered [s] with [value]: the [if (s.ok()) { ... malloc ... memcpy
    ... }] block and [return make_status(s)]. *)
Definition hand_out (s : rocksdb.Status) (value : string)
  : M (RocksDBStatus * option positive * N) :=
  if rocksdb.ok s then
    value_out ← malloc (size value);
    match value_out with
    | Some p => memcpy p value (size value)
    | None => mret tt
    end;;
    mret (make_status s, value_out, size value)
  else
    mret (make_status s, None, 0%N).

(** The point lookups. *)
Definition looks_up (c : Call) : bool :=
  match c with
  | c_get _ _ _ _ | c_transaction_get _ _ _ _
  | c_transaction_get_for_update _ _ _ _ => true
  | _ => false
  end.

(** What a point lookup returns once the engine has answered [s] with
    [v] and left the world [w]: nothing handed out unless [s] is OK;
    otherwise the length of [v] and the result of [malloc], a block that
    was not live and holds exactly [v], or null. *)
Definition handed_out (s : rocksdb.Status) (v : string) (w : rocksdb.world)
    (st : State)
    (result : option (RocksDBStatus * option positive * N * State)) : Prop :=
  (rocksdb.ok s = false →
   result = Some ((make_status s, None, 0%N), set_engine w st))
  ∧ (rocksdb.ok s = true → malloc_null st (size v) = true →
     result = Some ((make_ok, None, size v), set_engine w st))
  ∧ (rocksdb.ok s = true → malloc_null st (size v) = false →
     ∃ b, buffers st !! b = None
          ∧ result
            = Some ((make_ok, Some b, size v),
                    set_table buffer_kind (<[b := v]> (buffers st))
                      (set_engine w st))).

(** The kinds of handle that wrap one engine pointer. *)
Inductive HandleKind : Type :=
| DatabaseHandle
| IteratorHandle
| TransactionHandle.

(** The handle an operation guards its body with, for the operations
    whose guard tests the handle and its engine pointer together
    ([!db || !db->db], [iter && iter->iter], [!txn || !txn->txn]).
    [rocksdb_close] and the destroy functions have no such guard: they
    delete the handle they are given. *)
Definition tested_pointer (c : Call) : option (HandleKind * option positive) :=
  match c with
  | c_put h _ _ _ _ _ | c_get h _ _ _ | c_delete h _ _ _
  | c_key_may_exist h _ _ _ | c_write_batch h _ _ | c_iterator_create h _
  | c_create_snapshot h | c_release_snapshot h _
  | c_compact_range h _ _ _ _ | c_flush h _
  | c_get_property h _ | c_get_approximate_sizes h _ _ _ _ _ _ =>
      Some (DatabaseHandle, h)
  | c_iterator_valid h | c_iterator_seek_to_first h
  | c_iterator_seek_to_last h | c_iterator_seek h _ _
  | c_iterator_seek_for_prev h _ _ | c_iterator_next h | c_iterator_prev h
  | c_iterator_key h | c_iterator_value h | c_iterator_status h =>
      Some (IteratorHandle, h)
  | c_transaction_put h _ _ _ _ | c_transaction_get h _ _ _
  | c_transaction_get_for_update h _ _ _ | c_transaction_delete h _ _
  | c_transaction_create_iterator h _ | c_transaction_commit h
  | c_transaction_rollback h | c_transaction_set_savepoint h
  | c_transaction_rollback_to_savepoint h =>
      Some (TransactionHandle, h)
  | _ => None
  end.

(** A live handle whose engine pointer is null. *)
Definition hollow (st : State) (k : HandleKind) (p : positive) : Prop :=
  match k with
  | DatabaseHandle => ∃ h, db_handles st !! p = Some h ∧ db h = None
  | IteratorHandle => iterator_handles st !! p = Some (mkIteratorHandle None)
  | TransactionHandle =>
      transaction_handles st !! p = Some (mkTransactionHandle None)
  end.

(** The call with each null options pointer replaced by a pointer to
    default-constructed options. *)
Definition with_default_options (c : Call) : Call :=
  let ro (o : RocksDBReadOptionsRef) : RocksDBReadOptionsRef :=
    Some (readOpts o) in
  let wo (o : RocksDBWriteOptionsRef) : RocksDBWriteOptionsRef :=
    Some (writeOpts o) in
  match c with
  | c_put d o k kl v vl => c_put d (wo o) k kl v vl
  | c_get d o k kl => c_get d (ro o) k kl
  | c_delete d o k kl => c_delete d (wo o) k kl
  | c_key_may_exist d o k kl => c_key_may_exist d (ro o) k kl
  | c_write_batch d o b => c_write_batch d (wo o) b
  | c_iterator_create d o => c_iterator_create d (ro o)
  | c_transaction_begin d o => c_transaction_begin d (wo o)
  | c_transaction_get t o k kl => c_transaction_get t (ro o) k kl
  | c_transaction_get_for_update t o k kl =>
      c_transaction_get_for_update t (ro o) k kl
  | c_transaction_create_iterator t o =>
      c_transaction_create_iterator t (ro o)
  | _ => c
  end.

(** The bytes a slice denotes: the first [size_] bytes at [data_]. *)
Definition slice_bytes (s : Slice) : string :=
  take_bytes (N.to_nat (size_ s)) (default EmptyString (data_ s)).

(** Modelled from the spec: the keys a manual compaction covers.  The
    engine's [DB::CompactRange] is not among the sources of the bridge;
    the spec gives its range as half-open, [[start, end)], an omitted
    bound standing for the corresponding extreme of the keyspace.  Keys
    are ordered bytewise, the engine's default and the only order the
    bridge can ask for. *)
Definition compaction_covers (start_bound end_bound : option Slice)
    (k : string) : bool :=
  match start_bound with
  | Some b => String.leb (slice_bytes b) k
  | None => true
  end
  && match end_bound with
     | Some e => String.ltb k (slice_bytes e)
     | None => true
     end.

(** Whether a byte string holds a NUL byte. *)
Fixpoint has_nul (s : string) : bool :=
  match s with
  | EmptyString => false
  | String c rest => Ascii.eqb c "000"%char || has_nul rest
  end.

End Extensions.

(** ** A reference engine

    A small in-memory engine that implements the interface, used to run the
    bridge on concrete inputs.  It follows the documented behaviour of
    RocksDB on the operations it supports (status codes as in
    [rocksdb/status.h], sorted keys, batches applied in order, transactions
    that buffer their writes, snapshots that pin a view until released,
    iterators that are gone once deleted) and compacts the range
    [compaction_covers] gives. *)
Module MemEngine.

Local Open Scope string_scope.

Inductive Code : Type :=
| kOk | kNotFound | kCorruption | kNotSupported | kInvalidArgument
| kIOError | kMergeInProgress | kIncomplete | kShutdownInProgress
| kTimedOut | kAborted | kBusy | kExpired | kTryAgain
| kCompactionTooLarge | kColumnFamilyDropped.

#[global] Instance Code_eq_dec : EqDecision Code.
Proof. solve_decision. Defined.

Record Status : Type := status_with { code_ : Code; state_ : string }.

Definition has_code (c : Code) (s : Status) : bool :=
  bool_decide (code_ s = c).

Definition OK : Status := status_with kOk EmptyString.

Definition code_name (c : Code) : string :=
  match c with
  | kOk => "OK"
  | kNotFound => "NotFound: "
  | kCorruption => "Corruption: "
  | kNotSupported => "Not implemented: "
  | kInvalidArgument => "Invalid argument: "
  | kIOError => "IO error: "
  | kMergeInProgress => "Merge in progress: "
  | kIncomplete => "Result incomplete: "
  | kShutdownInProgress => "Shutdown in progress: "
  | kTimedOut => "Operation timed out: "
  | kAborted => "Operation aborted: "
  | kBusy => "Resource busy: "
  | kExpired => "Operation expired: "
  | kTryAgain => "Operation failed. Try again.: "
  | kCompactionTooLarge => "Compaction too large: "
  | kColumnFamilyDropped => "Column family dropped: "
  end.

Definition ToString (s : Status) : string :=
  code_name (code_ s) ++ state_ s.

Record Options : Type := mkOptions {
  create_if_missing : bool;
  error_if_exists : bool
}.

(** The bytes a slice denotes. *)
Definition bytes_of (s : Slice) : string :=
  take_bytes (N.to_nat (size_ s)) (default EmptyString (data_ s)).

Definition slice_of (s : string) : Slice := mkSlice (Some s) (size s).

(** Association lists keyed by byte strings; a database keeps its entries
    in increasing key order. *)
Fixpoint assoc {A : Type} (k : string) (t : list (string * A)) : option A :=
  match t with
  | [] => None
  | (k', v) :: rest => if String.eqb k k' then Some v else assoc k rest
  end.

Fixpoint insert_key {A : Type} (k : string) (v : A) (t : list (string * A))
  : list (string * A) :=
  match t with
  | [] => [(k, v)]
  | (k', v') :: rest =>
      if String.eqb k k' then (k, v) :: rest
      else if String.ltb k k' then (k, v) :: t
      else (k', v') :: insert_key k v rest
  end.

Definition Table : Type := list (string * string).

Definition remove_key (k : string) (t : Table) : Table :=
  filter (λ e, negb (String.eqb k e.1)) t.

Definition in_range (a b k : string) : bool :=
  String.leb a k && String.ltb k b.

Definition remove_range (a b : string) (t : Table) : Table :=
  filter (λ e, negb (in_range a b e.1)) t.

Inductive WriteOp : Type :=
| WPut (k v : string)
| WDelete (k : string)
| WDeleteRange (a b : string).

Definition apply_op (t : Table) (op : WriteOp) : Table :=
  match op with
  | WPut k v => insert_key k v t
  | WDelete k => remove_key k t
  | WDeleteRange a b => remove_range a b t
  end.

Definition op_size (op : WriteOp) : nat :=
  match op with
  | WPut k v => String.length k + String.length v
  | WDelete k => String.length k
  | WDeleteRange a b => String.length a + String.length b
  end.

(** The view of a table through a list of pending writes. *)
Definition overlay (t : Table) (ops : list WriteOp) : Table :=
  foldl apply_op t ops.

(** The databases by path, the cursors (the entries each one walks and
    its position; no entry once the iterator is deleted), the transactions
    (database, buffered writes and savepoints), the property table, the
    snapshots (the view each one pins; none once it is released) and, by
    database, the keys whose entries a manual compaction has rewritten. *)
Record World : Type := mkWorld {
  disk : list (string * Table);
  cursors : list (option (Table * option nat));
  transactions : list (string * list WriteOp * list nat);
  properties : list (string * string);
  pinned : list (option Table);
  settled : list (string * list string)
}.

Definition set_disk (d : list (string * Table)) (w : World) : World :=
  mkWorld d (cursors w) (transactions w) (properties w) (pinned w)
    (settled w).

Definition set_cursors (c : list (option (Table * option nat))) (w : World)
  : World :=
  mkWorld (disk w) c (transactions w) (properties w) (pinned w) (settled w).

Definition set_transactions (t : list (string * list WriteOp * list nat))
    (w : World) : World :=
  mkWorld (disk w) (cursors w) t (properties w) (pinned w) (settled w).

Definition set_pinned (p : list (option Table)) (w : World) : World :=
  mkWorld (disk w) (cursors w) (transactions w) (properties w) p (settled w).

Definition set_settled (c : list (string * list string)) (w : World)
  : World :=
  mkWorld (disk w) (cursors w) (transactions w) (properties w) (pinned w) c.

Definition gone (path : string) : Status :=
  status_with kIOError (path ++ ": No such file or directory").

Definition open (o : Options) (path : string) (w : World)
  : Status * option string * World :=
  match assoc path (disk w) with
  | Some _ =>
      if error_if_exists o then
        (status_with kInvalidArgument
           (path ++ ": exists (error_if_exists is true)"),
         None, w)
      else (OK, Some path, w)
  | None =>
      if create_if_missing o then
        (OK, Some path, set_disk (insert_key path [] (disk w)) w)
      else
        (status_with kInvalidArgument
           (path ++ ": does not exist (create_if_missing is false)"),
         None, w)
  end.

Definition open_for_read_only (o : Options) (path : string)
    (error_if_wal_exists : bool) (w : World)
  : Status * option string * World :=
  match assoc path (disk w) with
  | Some _ => (OK, Some path, w)
  | None => (gone path, None, w)
  end.

Definition write (path : string) (ops : list WriteOp) (w : World)
  : Status * World :=
  match assoc path (disk w) with
  | Some t => (OK, set_disk (insert_key path (overlay t ops) (disk w)) w)
  | None => (gone path, w)
  end.

Definition read (t : Table) (k : string) : Status * string :=
  match assoc k t with
  | Some v => (OK, v)
  | None => (status_with kNotFound EmptyString, EmptyString)
  end.

Definition get (path : string) (k : Slice) (w : World)
  : Status * string * World :=
  match assoc path (disk w) with
  | Some t => (read t (bytes_of k), w)
  | None => (gone path, EmptyString, w)
  end.

Definition key_may_exist (path : string) (k : Slice) (w : World)
  : bool * World :=
  match assoc path (disk w) with
  | Some t => (bool_decide (is_Some (assoc (bytes_of k) t)), w)
  | None => (false, w)
  end.

Definition new_iterator_over (t : Table) (w : World) : option nat * World :=
  (Some (length (cursors w)),
   set_cursors (cursors w ++ [Some (t, None)])%list w).

Definition new_iterator (path : string) (w : World) : option nat * World :=
  match assoc path (disk w) with
  | Some t => new_iterator_over t w
  | None => new_iterator_over [] w
  end.

(** The entry under a cursor, when it is on one. *)
Definition current (i : nat) (w : World) : option (string * string) :=
  match cursors w !! i with
  | Some (Some (t, Some pos)) => t !! pos
  | _ => None
  end.

Definition valid (i : nat) (w : World) : bool :=
  bool_decide (is_Some (current i w)).

(** The index of the first entry satisfying [p]. *)
Fixpoint first_index (p : string → bool) (t : Table) : option nat :=
  match t with
  | [] => None
  | e :: rest => if p e.1 then Some O else S <$> first_index p rest
  end.

(** The index of the last entry satisfying [p]. *)
Fixpoint last_index (p : string → bool) (t : Table) : option nat :=
  match t with
  | [] => None
  | e :: rest =>
      match last_index p rest with
      | Some n => Some (S n)
      | None => if p e.1 then Some O else None
      end
  end.

Definition moved (m : IterMove) (t : Table) (pos : option nat) : option nat :=
  match m with
  | SeekToFirst => first_index (λ _, true) t
  | SeekToLast => last_index (λ _, true) t
  | Seek target => first_index (String.leb (bytes_of target)) t
  | SeekForPrev target => last_index (λ k, String.leb k (bytes_of target)) t
  | Next => S <$> pos
  | Prev => match pos with Some (S n) => Some n | _ => None end
  end.

Definition iterator_move (m : IterMove) (i : nat) (w : World) : World :=
  match cursors w !! i with
  | Some (Some (t, pos)) =>
      set_cursors (<[i := Some (t, moved m t pos)]> (cursors w)) w
  | _ => w
  end.

(** [delete iterator]: the cursor is gone. *)
Definition delete_iterator (i : nat) (w : World) : World :=
  set_cursors (<[i := None]> (cursors w)) w.

Definition current_key (i : nat) (w : World) : Slice :=
  match current i w with
  | Some e => slice_of e.1
  | None => mkSlice None 0
  end.

Definition current_value (i : nat) (w : World) : Slice :=
  match current i w with
  | Some e => slice_of e.2
  | None => mkSlice None 0
  end.

Definition begin_transaction (path : string) (w : World)
  : option nat * World :=
  (Some (length (transactions w)),
   set_transactions (transactions w ++ [(path, [], [])])%list w).

(** Run [f] on the buffer and savepoints of transaction [t]. *)
Definition in_transaction {A : Type} (t : nat) (w : World) (missing : A)
    (f : string → list WriteOp → list nat → A) : A :=
  match transactions w !! t with
  | Some (path, ops, saves) => f path ops saves
  | None => missing
  end.

Definition no_transaction : Status :=
  status_with kInvalidArgument "no such transaction".

Definition transaction_buffer (t : nat) (op : WriteOp) (w : World)
  : Status * World :=
  in_transaction t w (no_transaction, w) (λ path ops saves,
    (OK, set_transactions
           (<[t := (path, ops ++ [op], saves)%list]> (transactions w)) w)).

Definition transaction_view (t : nat) (w : World) : Table :=
  in_transaction t w [] (λ path ops _,
    overlay (default [] (assoc path (disk w))) ops).

Definition transaction_get (t : nat) (k : Slice) (w : World)
  : Status * string * World :=
  in_transaction t w (no_transaction, EmptyString, w) (λ _ _ _,
    (read (transaction_view t w) (bytes_of k), w)).

Definition transaction_commit (t : nat) (w : World) : Status * World :=
  in_transaction t w (no_transaction, w) (λ path ops _,
    let '(s, w') := write path ops w in
    (s, set_transactions (<[t := (path, [], [])]> (transactions w')) w')).

Definition transaction_rollback (t : nat) (w : World) : Status * World :=
  in_transaction t w (no_transaction, w) (λ path _ _,
    (OK, set_transactions (<[t := (path, [], [])]> (transactions w)) w)).

Definition transaction_set_savepoint (t : nat) (w : World) : World :=
  in_transaction t w w (λ path ops saves,
    set_transactions
      (<[t := (path, ops, length ops :: saves)]> (transactions w)) w).

Definition transaction_rollback_to_savepoint (t : nat) (w : World)
  : Status * World :=
  in_transaction t w (no_transaction, w) (λ path ops saves,
    match saves with
    | n :: rest =>
        (OK, set_transactions
               (<[t := (path, take n ops, rest)]> (transactions w)) w)
    | [] => (status_with kNotFound EmptyString, w)
    end).

Definition get_property (path name : string) (w : World) : bool * string :=
  match assoc name (properties w) with
  | Some v => (true, v)
  | None => (false, EmptyString)
  end.

(** [GetSnapshot] pins the current entries of the database. *)
Definition get_snapshot (path : string) (w : World) : option nat * World :=
  (Some (length (pinned w)),
   set_pinned (pinned w ++ [Some (default [] (assoc path (disk w)))])%list w).

Definition release_snapshot (s : nat) (w : World) : World :=
  set_pinned (<[s := None]> (pinned w)) w.

(** Whether a snapshot is still held. *)
Definition held (s : nat) (w : World) : bool :=
  bool_decide (is_Some (mjoin (pinned w !! s))).

(** Whether an iterator still exists. *)
Definition iterating (i : nat) (w : World) : bool :=
  bool_decide (is_Some (mjoin (cursors w !! i))).

(** Whether the database holds an entry for the key. *)
Definition stored (path : string) (k : string) (w : World) : bool :=
  bool_decide (is_Some (assoc k (default [] (assoc path (disk w))))).

(** Whether the entry of the key has been through a manual compaction. *)
Definition compacted (path : string) (k : string) (w : World) : bool :=
  bool_decide (k ∈ default [] (assoc path (settled w))).

(** The keys of a table that a compaction with the given bounds covers. *)
Definition covered_keys (b e : option Slice) (t : Table) : list string :=
  filter (λ k, compaction_covers b e k = true) (map fst t).

(** [CompactRange] rewrites the entries the bounds cover. *)
Definition compact_range (path : string) (b e : option Slice) (w : World)
  : Status * World :=
  match assoc path (disk w) with
  | Some t =>
      (OK,
       set_settled
         (insert_key path
            (default [] (assoc path (settled w)) ++ covered_keys b e t)%list
            (settled w)) w)
  | None => (gone path, w)
  end.

(** The bytes held by the entries of a range. *)
Definition approximate_size (path : string) (r : Range) (w : World) : N :=
  let t := default [] (assoc path (disk w)) in
  N.of_nat
    (list_sum
       (map (λ e : string * string, String.length e.1 + String.length e.2)%nat
          (filter (λ e, in_range (bytes_of (start r)) (bytes_of (limit r)) e.1)
             t))).

#[global] Instance mem_engine : rocksdb.Engine := {|
  rocksdb.Status := Status;
  rocksdb.ok := has_code kOk;
  rocksdb.IsNotFound := has_code kNotFound;
  rocksdb.IsCorruption := has_code kCorruption;
  rocksdb.IsNotSupported := has_code kNotSupported;
  rocksdb.IsInvalidArgument := has_code kInvalidArgument;
  rocksdb.IsIOError := has_code kIOError;
  rocksdb.IsMergeInProgress := has_code kMergeInProgress;
  rocksdb.IsIncomplete := has_code kIncomplete;
  rocksdb.IsShutdownInProgress := has_code kShutdownInProgress;
  rocksdb.IsTimedOut := has_code kTimedOut;
  rocksdb.IsAborted := has_code kAborted;
  rocksdb.IsBusy := has_code kBusy;
  rocksdb.IsExpired := has_code kExpired;
  rocksdb.IsTryAgain := has_code kTryAgain;
  rocksdb.IsCompactionTooLarge := has_code kCompactionTooLarge;
  rocksdb.ToString := ToString;
  rocksdb.Options := Options;
  rocksdb.ReadOptions := unit;
  rocksdb.WriteOptions := unit;
  rocksdb.ReadOptions_default := tt;
  rocksdb.WriteOptions_default := tt;
  rocksdb.DB := string;
  rocksdb.OptimisticTransactionDB := string;
  rocksdb.Iterator := nat;
  rocksdb.Transaction := nat;
  rocksdb.Snapshot := nat;
  rocksdb.world := World;
  rocksdb.WriteBatch := list WriteOp;
  rocksdb.WriteBatch_new := [];
  rocksdb.WriteBatch_Put := λ b k v,
    (b ++ [WPut (bytes_of k) (bytes_of v)])%list;
  rocksdb.WriteBatch_Delete := λ b k, (b ++ [WDelete (bytes_of k)])%list;
  rocksdb.WriteBatch_DeleteRange := λ b s e,
    (b ++ [WDeleteRange (bytes_of s) (bytes_of e)])%list;
  rocksdb.WriteBatch_Clear := λ _, [];
  rocksdb.WriteBatch_Count := λ b, N.of_nat (length b);
  rocksdb.WriteBatch_GetDataSize := λ b, N.of_nat (list_sum (map op_size b));
  rocksdb.DB_Open := open;
  rocksdb.DB_OpenForReadOnly := open_for_read_only;
  rocksdb.OptimisticTransactionDB_Open := open;
  rocksdb.GetBaseDB := λ t _, Some t;
  rocksdb.delete_DB := λ _ w, w;
  rocksdb.delete_OptimisticTransactionDB := λ _ w, w;
  rocksdb.Put := λ d _ k v, write d [WPut (bytes_of k) (bytes_of v)];
  rocksdb.Get := λ d _ k, get d k;
  rocksdb.Delete := λ d _ k, write d [WDelete (bytes_of k)];
  rocksdb.KeyMayExist := λ d _ k, key_may_exist d k;
  rocksdb.DB_Write := λ d _ b, write d b;
  rocksdb.NewIterator := λ d _, new_iterator d;
  rocksdb.GetSnapshot := get_snapshot;
  rocksdb.ReleaseSnapshot := λ _, release_snapshot;
  rocksdb.CompactRange := compact_range;
  rocksdb.Flush := λ _ _ w, (OK, w);
  rocksdb.GetProperty := get_property;
  rocksdb.ApproximateSize := approximate_size;
  rocksdb.Valid := valid;
  rocksdb.Iterator_move := iterator_move;
  rocksdb.key := current_key;
  rocksdb.value := current_value;
  rocksdb.status := λ _ _, OK;
  rocksdb.delete_Iterator := delete_iterator;
  rocksdb.BeginTransaction := λ t _, begin_transaction t;
  rocksdb.Transaction_Put := λ t k v,
    transaction_buffer t (WPut (bytes_of k) (bytes_of v));
  rocksdb.Transaction_Get := λ t _ k, transaction_get t k;
  rocksdb.Transaction_GetForUpdate := λ t _ k, transaction_get t k;
  rocksdb.Transaction_Delete := λ t k,
    transaction_buffer t (WDelete (bytes_of k));
  rocksdb.Transaction_GetIterator := λ t _ w,
    new_iterator_over (transaction_view t w) w;
  rocksdb.Transaction_Commit := transaction_commit;
  rocksdb.Transaction_Rollback := transaction_rollback;
  rocksdb.Transaction_SetSavePoint := transaction_set_savepoint;
  rocksdb.Transaction_RollbackToSavePoint := transaction_rollback_to_savepoint;
  rocksdb.delete_Transaction := λ _ w, w
|}.

(** A machine with no database on disk and nothing allocated; [malloc]
    never returns null. *)
Definition empty_world : World :=
  mkWorld [] [] [] [("rocksdb.stats", EmptyString)] [] [].

Definition initial : State :=
  mkState empty_world ∅ ∅ ∅ ∅ ∅ ∅ (λ _, false).

(** The state a sequence of calls leaves, and the outcome of the last. *)
Fixpoint run_all (cs : list Call) (st : State)
  : option (list Outcome * State) :=
  match cs with
  | [] => Some ([], st)
  | c :: rest =>
      match run c st with
      | Some (o, st') =>
          match run_all rest st' with
          | Some (os, st'') => Some (o :: os, st'')
          | None => None
          end
      | None => None
      end
  end.

(** *** Concrete inputs *)

Definition create : RocksDBOptionsRef := Some (mkOptions true false).
Definition no_create : RocksDBOptionsRef := Some (mkOptions false false).

(** The state [calls] leave when run from [st] ([st] itself if they are
    undefined). *)
Definition after (calls : list Call) (st : State) : State :=
  match run_all calls st with
  | Some (_, st') => st'
  | None => st
  end.

(** Open a database at "db" and store "k" with value "abc" and "e" with
    the empty value.  The handle is at address 1. *)
Definition populate : list Call :=
  [ c_open "db" create;
    c_put (Some 1%positive) None (Some "k") 1 (Some "abc") 3;
    c_put (Some 1%positive) None (Some "e") 1 (Some EmptyString) 0 ].

Definition populated : State := after populate initial.

(** The same database with an iterator, at address 1, that has not been
    positioned yet. *)
Definition with_iterator : State :=
  after [c_iterator_create (Some 1%positive) None] populated.

(** A database opened in transactional mode, its handle at address 1. *)
Definition transactional : State :=
  after [c_open_transactional "tdb" create] initial.

(** A status the bridge has no test for. *)
Definition dropped : Status := status_with kColumnFamilyDropped "cf".

Definition not_found : Status := status_with kNotFound EmptyString.

(** What opening "db" answers when it does not exist and may not be
    created. *)
Definition missing : Status :=
  status_with kInvalidArgument
    "db: does not exist (create_if_missing is false)".

(** *** Further concrete inputs *)

(** The populated database with an empty batch, at address 1. *)
Definition with_batch : State :=
  match rocksdb_batch_create populated with
  | Some (_, st) => st
  | None => populated
  end.

(** The transactional database with a transaction, at address 1. *)
Definition with_transaction : State :=
  after [c_transaction_begin (Some 1%positive) None] transactional.

(** A state whose iterator handle at address 1 wraps no engine iterator,
    as after a [NewIterator] that returned null. *)
Definition with_hollow_iterator : State :=
  mkState empty_world ∅ {[1%positive := mkIteratorHandle None]} ∅ ∅ ∅ ∅
    (λ _, false).

(** The populated database with a snapshot, its handle at address 1. *)
Definition with_snapshot : State :=
  after [c_create_snapshot (Some 1%positive)] populated.

(** A state whose database handle at address 1 holds no engine database,
    as after an open that answered OK without one, with a snapshot
    handle at address 1. *)
Definition with_hollow_database : State :=
  mkState empty_world {[1%positive := mkHandle None None false]} ∅ ∅ ∅
    {[1%positive := mkSnapshotHandle (Some 0%nat)]} ∅ (λ _, false).

(** The populated database after a manual compaction from "e" to "k". *)
Definition compact_e_k : Call :=
  c_compact_range (Some 1%positive) (Some "e") 1 (Some "k") 1.

(** A status whose text holds a NUL byte. *)
Definition cut : Status :=
  status_with kIOError (String "a" (String "000" (String "b" EmptyString))).

Definition put_z : Call :=
  c_put (Some 1%positive) None (Some "z") 1 (Some "v") 1.

End MemEngine.

(** * Properties *)

Section Properties.

Context {E : rocksdb.Engine}.

Implicit Types (s : rocksdb.Status) (st : State) (c : Call).

(** ** Status taxonomy *)

Lemma map_code_first_match s :
  map_code s = default RocksDBStatusIOError (first_match priority_order s).
Proof.
  unfold map_code, priority_order; simpl.
  repeat (match goal with |- context [if ?b then _ else _] => destruct b end;
          [reflexivity |]).
  reflexivity.
Qed.

Lemma map_code_not_ok s : map_code s ≠ RocksDBStatusOK.
Proof.
  unfold map_code.
  repeat (match goal with |- context [if ?b then _ else _] => destruct b end;
          [discriminate |]).
  discriminate.
Qed.

Lemma first_match_none tests s :
  Forall (λ t, t.1 s = false) tests → first_match tests s = None.
Proof.
  induction 1 as [| [test c0] rest Hhead _ IH]; simpl in *; [reflexivity |].
  by rewrite Hhead.
Qed.

(** C1. [make_status] is a total function of the engine status, so each
    engine condition gets exactly one code; the code is [OK] for an OK
    status and otherwise the one selected by the first test that holds in
    the fixed order of [priority_order], in which [IsNotFound] comes
    first: a status that is not OK and satisfies [IsNotFound] maps to
    [NotFound], and no status satisfying [IsNotFound] maps to [IOError];
    a status that is not OK and passes none of the tests maps to
    [IOError] and still carries its message. *)
Theorem make_status_total_priority s :
  (∃ r, make_status s = r ∧ ∀ r', make_status s = r' → r' = r)
  ∧ code (make_status s) =
      (if rocksdb.ok s then RocksDBStatusOK
       else default RocksDBStatusIOError (first_match priority_order s))
  ∧ (rocksdb.ok s = false → rocksdb.IsNotFound s = true →
     code (make_status s) = RocksDBStatusNotFound)
  ∧ (rocksdb.IsNotFound s = true →
     code (make_status s) ≠ RocksDBStatusIOError)
  ∧ (rocksdb.ok s = false →
     Forall (λ t, t.1 s = false) priority_order →
     make_status s =
       mkStatus RocksDBStatusIOError (strdup (rocksdb.ToString s))).
Proof.
  repeat split.
  - exists (make_status s). split; [reflexivity | congruence].
  - unfold make_status. destruct (rocksdb.ok s); simpl;
      [reflexivity | apply map_code_first_match].
  - intros Hok Hnf. unfold make_status, map_code. by rewrite Hok, Hnf.
  - intros Hnf. unfold make_status, map_code.
    destruct (rocksdb.ok s); simpl; [discriminate |].
    rewrite Hnf. discriminate.
  - intros Hok Hnone. unfold make_status. rewrite Hok. f_equal.
    rewrite map_code_first_match.
    by rewrite (first_match_none _ _ Hnone).
Qed.

(** ** Running bridge code *)

Lemma bind_Some {A B : Type} (m : M A) (f : A → M B) st b st' :
  (m ≫= f) st = Some (b, st') ↔
  ∃ a st1, m st = Some (a, st1) ∧ f a st1 = Some (b, st').
Proof.
  unfold mbind, M_bind. split.
  - destruct (m st) as [[a st1] |]; [eauto | discriminate].
  - intros (a & st1 & -> & Hf). exact Hf.
Qed.

Lemma ret_Some {A : Type} (a b : A) st st' :
  mret (M := M) a st = Some (b, st') ↔ a = b ∧ st = st'.
Proof.
  unfold mret, M_ret. split; [by intros [= -> ->] | by intros [-> ->]].
Qed.

Ltac step :=
  match goal with
  | H : (_ ≫= _) _ = Some _ |- _ =>
      apply bind_Some in H; destruct H as (? & ? & ? & H)
  | H : mret _ _ = Some _ |- _ => apply ret_Some in H; destruct H
  | H : undefined _ = Some _ |- _ => discriminate H
  | H : (let '(_, _) := ?p in _) _ = Some _ |- _ => destruct p
  | H : (match ?x with _ => _ end) _ = Some _ |- _ => destruct x
  | H : (if ?x then _ else _) _ = Some _ |- _ => destruct x
  end.

Lemma run_status_produced c st o st' r :
  run c st = Some (o, st') → status_of o = Some r → produced r.
Proof.
  intros Hrun Hr.
  destruct c; simpl in Hrun;
    unfold rocksdb_open, rocksdb_open_for_read_only,
      rocksdb_open_transactional, rocksdb_put, rocksdb_get, rocksdb_delete,
      rocksdb_write_batch, rocksdb_iterator_status, rocksdb_transaction_put,
      rocksdb_transaction_get, rocksdb_transaction_get_for_update,
      transaction_read, rocksdb_transaction_delete,
      rocksdb_transaction_commit, rocksdb_transaction_rollback_to_savepoint,
      rocksdb_compact_range, rocksdb_flush in Hrun;
    repeat step; simplify_eq/=; constructor.
Qed.

Lemma produced_message_iff_not_ok r : produced r → message_iff_not_ok r.
Proof.
  destruct 1 as [s | text]; unfold message_iff_not_ok.
  - unfold make_status. pose proof (map_code_not_ok s).
    destruct (rocksdb.ok s); simpl; unfold strdup;
      split; split; intros Hm; first [done | by destruct Hm | by eauto].
  - simpl. unfold strdup.
    split; split; intros Hm; first [done | by eauto].
Qed.

(** C7. For every status this layer produces, by [make_status], by
    [make_ok], or as the result of any operation that returns a status,
    the message is present exactly when the code is not [OK] and null
    exactly when the code is [OK]. *)
Theorem status_message_iff_not_ok :
  (∀ s, message_iff_not_ok (make_status s))
  ∧ message_iff_not_ok make_ok
  ∧ (∀ c st o st' r,
       run c st = Some (o, st') → status_of o = Some r →
       message_iff_not_ok r).
Proof.
  split; [| split].
  - intros s. apply produced_message_iff_not_ok. constructor.
  - unfold message_iff_not_ok, make_ok; simpl.
    split; split; intros Hm; first [done | by destruct Hm].
  - intros c st o st' r Hrun Hr.
    eapply produced_message_iff_not_ok, run_status_produced; eauto.
Qed.

(** ** Null handles *)

Lemma invalid_argument_rejected text :
  until_nul text ≠ EmptyString →
  ∀ o, status_of o = Some (invalid_argument text) → rejected o.
Proof.
  intros Hne o Ho. exists (invalid_argument text), (until_nul text). auto.
Qed.

(** C2, as the code has it.  On a null database, batch, iterator or
    transaction handle every operation returns at once with the result
    [null_result] lists: the operations whose return type is
    [RocksDBStatus] report [InvalidArgument] with a message that is not
    empty; the others carry no status and return 0, a null pointer or
    nothing.  The state is left as it was, with one exception:
    [rocksdb_release_snapshot] with a null database still deletes the
    snapshot handle it is given, without a call of the engine. *)
Theorem null_handle_outcome c st :
  null_handle c = true → handles_usable st c →
  (released_snapshot c = None → run c st = Some (null_result c, st))
  ∧ (∀ q, released_snapshot c = Some q →
          run c st
          = Some (null_result c,
                  set_table snapshot_kind (delete q (snapshot_handles st))
                    st))
  ∧ (returns_status c = true → rejected (null_result c))
  ∧ (returns_status c = false → status_of (null_result c) = None).
Proof.
  intros Hnull Hlive.
  assert (Hrest :
    (returns_status c = true → rejected (null_result c))
    ∧ (returns_status c = false → status_of (null_result c) = None)).
  { destruct c; simpl in Hnull |- *; try discriminate Hnull;
      split; intros Hs;
      first [ discriminate Hs | reflexivity
            | eapply invalid_argument_rejected; [| reflexivity];
              discriminate ]. }
  split; [| split; [| exact Hrest]]; clear Hrest.
  - intros Hkept.
    destruct c; simpl in Hnull; try discriminate Hnull;
      try (apply bool_decide_eq_true in Hnull; subst; reflexivity).
    + destruct db_ref as [p |]; [| reflexivity].
      destruct b as [q |]; [cbv in Hnull; discriminate Hnull |].
      simpl in Hlive. destruct Hlive as [h Hh].
      simpl. unfold rocksdb_write_batch, checked_db, load; simpl.
      unfold mbind, M_bind. simpl. rewrite Hh. simpl.
      by destruct (db h).
    + simpl in Hkept. subst sn.
      destruct db_ref as [p |]; [| reflexivity].
      simpl in Hlive. destruct Hlive as [h Hh].
      simpl. unfold rocksdb_release_snapshot, checked_db, load; simpl.
      unfold mbind, M_bind. simpl. by rewrite Hh.
  - intros q Hq. destruct c; simpl in Hq; try discriminate Hq.
    subst sn. destruct db_ref as [p |]; [cbv in Hnull; discriminate Hnull |].
    simpl in Hlive. destruct Hlive as [h Hh].
    simpl. unfold rocksdb_release_snapshot, checked_db, load, release; simpl.
    unfold mbind, M_bind, mret, M_ret. simpl. rewrite Hh; simpl.
    by rewrite Hh.
Qed.

(** ** Live handles *)

Lemma checked_db_open st p d :
  open_db st p d → checked_db (Some p) st = Some (Some d, st).
Proof.
  intros (h & Hh & Hd). unfold checked_db, load, mbind, M_bind; simpl.
  by rewrite Hh, <- Hd.
Qed.

Lemma bind_run {A B : Type} (m : M A) (f : A → M B) st a st1 :
  m st = Some (a, st1) → (m ≫= f) st = f a st1.
Proof. intros Hm. unfold mbind, M_bind. by rewrite Hm. Qed.

(** ** Iterator accessors *)

(** C5. Whenever [rocksdb_iterator_valid] answers 0 (a null handle, a
    handle without an engine iterator, or an engine iterator that is not
    valid) both accessors are defined and return the null pointer with
    length 0, leaving the state as it was; on the null handle in
    particular. *)
Theorem iterator_accessors_empty_when_invalid it st :
  rocksdb_iterator_valid it st = Some (0%Z, st) →
  rocksdb_iterator_key it st = Some ((None, 0%N), st)
  ∧ rocksdb_iterator_value it st = Some ((None, 0%N), st)
  ∧ rocksdb_iterator_key None st = Some ((None, 0%N), st)
  ∧ rocksdb_iterator_value None st = Some ((None, 0%N), st).
Proof.
  unfold rocksdb_iterator_valid, rocksdb_iterator_key,
    rocksdb_iterator_value.
  intros Hvalid. apply bind_Some in Hvalid as (i & st1 & Hi & Hv).
  rewrite !(bind_run _ _ _ _ _ Hi).
  destruct i as [i |]; [| apply ret_Some in Hv as [_ ->]; done].
  unfold query, mbind, M_bind, mret, M_ret in Hv |- *; simpl in *.
  destruct (rocksdb.Valid i (engine st1)); [discriminate Hv |].
  by simplify_eq.
Qed.

(** ** Maintenance *)

Lemma bound_omitted key key_len :
  bound key key_len = None ↔ key = None ∨ key_len = 0%N.
Proof.
  unfold bound. destruct key as [k |].
  - destruct (N.ltb_spec 0 key_len); split.
    + discriminate.
    + intros [[=] | ->]. lia.
    + intros _. right. lia.
    + reflexivity.
  - split; [by left | reflexivity].
Qed.

Section Compaction.

(** The engine's side of a manual compaction, which is not among the
    sources of the bridge: which keys a database stores, which of them
    have been through a manual compaction, and the range [CompactRange]
    works on, as the spec gives it ([compaction_covers]). *)
Variables (stored compacted : rocksdb.DB → string → rocksdb.world → bool).

Hypothesis CompactRange_contract :
  ∀ d b e w s w' k,
    rocksdb.CompactRange d b e w = (s, w') → rocksdb.ok s = true →
    stored d k w = true →
    compacted d k w' = compacted d k w || compaction_covers b e k.

(** C8. [rocksdb_compact_range] on an open database hands the engine's
    [CompactRange] the two bounds of the range and returns its status.  A
    bound is passed as omitted (the null slice pointer) exactly when the
    key pointer is null or the length is zero, and is otherwise the slice
    of the given pointer and length.  With an engine that compacts the
    range the spec describes, a call that returns [OK] has compacted
    exactly the stored keys [k] with [start <= k < end], the half-open
    range, where an omitted start or end sets no limit on that side. *)
Theorem compact_range_bounds :
  (∀ key key_len, bound key key_len = None ↔ key = None ∨ key_len = 0%N)
  ∧ (∀ key key_len,
       key ≠ None → key_len ≠ 0%N →
       bound key key_len = Some (mkSlice key key_len))
  ∧ (∀ st p d start_key start_key_len end_key end_key_len,
       open_db st p d →
       rocksdb_compact_range (Some p)
         start_key start_key_len end_key end_key_len st =
       let '(s, w) :=
         rocksdb.CompactRange d (bound start_key start_key_len)
           (bound end_key end_key_len) (engine st) in
       Some (make_status s, set_engine w st))
  ∧ (∀ st p d start_key start_key_len end_key end_key_len,
       open_db st p d →
       ∃ r w,
         rocksdb_compact_range (Some p)
           start_key start_key_len end_key end_key_len st
         = Some (r, set_engine w st)
         ∧ (code r = RocksDBStatusOK →
            ∀ k, stored d k (engine st) = true →
              (compacted d k w = true ↔
               compacted d k (engine st) = true
               ∨ ((start_key = None ∨ start_key_len = 0%N
                   ∨ String.leb
                       (slice_bytes (mkSlice start_key start_key_len)) k
                     = true)
                  ∧ (end_key = None ∨ end_key_len = 0%N
                     ∨ String.ltb k
                         (slice_bytes (mkSlice end_key end_key_len))
                       = true))))).
Proof using CompactRange_contract.
  assert (Hgiven : ∀ key key_len,
    key ≠ None → key_len ≠ 0%N →
    bound key key_len = Some (mkSlice key key_len)).
  { intros [k |] key_len Hk Hlen; [| done]. unfold bound.
    destruct (N.ltb_spec 0 key_len); [reflexivity | lia]. }
  assert (Hcall : ∀ st p d sk sl ek el,
    open_db st p d →
    rocksdb_compact_range (Some p) sk sl ek el st =
    let '(s, w) :=
      rocksdb.CompactRange d (bound sk sl) (bound ek el) (engine st) in
    Some (make_status s, set_engine w st)).
  { intros st p d sk sl ek el Hopen. unfold rocksdb_compact_range.
    rewrite (bind_run _ _ _ _ _ (checked_db_open _ _ _ Hopen)).
    unfold call, mbind, M_bind, mret, M_ret.
    by destruct (rocksdb.CompactRange _ _ _ _). }
  split; [exact bound_omitted | split; [exact Hgiven | split]];
    [exact Hcall |].
  intros st p d sk sl ek el Hopen. rewrite (Hcall _ _ _ _ _ _ _ Hopen).
  destruct (rocksdb.CompactRange d (bound sk sl) (bound ek el) (engine st))
    as [s w] eqn:Hcompact.
  exists (make_status s), w. split; [reflexivity |].
  intros Hcode k Hstored.
  assert (Hok : rocksdb.ok s = true).
  { unfold make_status in Hcode. destruct (rocksdb.ok s); [reflexivity |].
    by destruct (map_code_not_ok s). }
  rewrite (CompactRange_contract _ _ _ _ _ _ k Hcompact Hok Hstored).
  rewrite orb_true_iff. unfold compaction_covers. rewrite andb_true_iff.
  assert (Hside : ∀ key key_len (test : string → bool),
    match bound key key_len with
    | Some b => test (slice_bytes b)
    | None => true
    end = true
    ↔ key = None ∨ key_len = 0%N
      ∨ test (slice_bytes (mkSlice key key_len)) = true).
  { intros key key_len test.
    destruct (bound key key_len) as [b |] eqn:Hb.
    - assert (Hnot : ¬ (key = None ∨ key_len = 0%N)).
      { intros Hnone. apply bound_omitted in Hnone. congruence. }
      rewrite Hgiven in Hb by tauto. injection Hb as <-. tauto.
    - apply bound_omitted in Hb. tauto. }
  rewrite (Hside sk sl (λ b, String.leb b k)).
  rewrite (Hside ek el (λ e, String.ltb k e)).
  reflexivity.
Qed.

End Compaction.

(** C9. On an open database [rocksdb_get_property] returns null when the
    engine does not know the property, and a string that is not null when
    it does: the empty string for a property whose value is empty, so the
    two cases differ. *)
Theorem get_property_absent_or_string st p d property :
  open_db st p d →
  (∀ v, rocksdb.GetProperty d property (engine st) = (false, v) →
        rocksdb_get_property (Some p) property st = Some (None, st))
  ∧ (∀ v, rocksdb.GetProperty d property (engine st) = (true, v) →
          rocksdb_get_property (Some p) property st
          = Some (Some (until_nul v), st))
  ∧ (rocksdb.GetProperty d property (engine st) = (true, EmptyString) →
     rocksdb_get_property (Some p) property st
     = Some (Some EmptyString, st))
  ∧ (∀ v r st', rocksdb.GetProperty d property (engine st) = (true, v) →
       rocksdb_get_property (Some p) property st = Some (r, st') →
       r ≠ None).
Proof.
  intros Hopen.
  assert (Hrun : ∀ found v,
    rocksdb.GetProperty d property (engine st) = (found, v) →
    rocksdb_get_property (Some p) property st
    = Some (if found then strdup v else None, st)).
  { intros found v Hget. unfold rocksdb_get_property.
    rewrite (bind_run _ _ _ _ _ (checked_db_open _ _ _ Hopen)).
    unfold query, mbind, M_bind, mret, M_ret. rewrite Hget.
    by destruct found. }
  repeat split.
  - intros v Hget. by rewrite (Hrun _ _ Hget).
  - intros v Hget. by rewrite (Hrun _ _ Hget).
  - intros Hget. by rewrite (Hrun _ _ Hget).
  - intros v r st' Hget. rewrite (Hrun _ _ Hget). by intros [= <- _].
Qed.

(** ** Opening *)

Lemma fresh_not_live {A : Type} (m : gmap positive A) :
  m !! fresh (dom m) = None.
Proof. apply not_elem_of_dom, is_fresh. Qed.

Lemma delete_fresh {A : Type} (m : gmap positive A) (a : A) :
  delete (fresh (dom m)) (<[fresh (dom m) := a]> m) = m.
Proof. rewrite delete_insert_eq. apply delete_id, fresh_not_live. Qed.

Ltac run_bridge :=
  unfold new, load, store, release, call, query, update, options_of,
    undefined, mbind, M_bind, mret, M_ret; simpl.

Lemma rocksdb_open_failure path o st s d w :
  rocksdb.DB_Open o path (engine st) = (s, d, w) →
  rocksdb.ok s = false →
  rocksdb_open path (Some o) st =
  Some ((make_status s, None),
        set_engine
          match d with Some d' => rocksdb.delete_DB d' w | None => w end
          st).
Proof.
  intros Hopen Hok.
  unfold rocksdb_open, delete_RocksDBHandle, destroy_RocksDBHandle.
  run_bridge. rewrite Hopen; simpl. rewrite lookup_insert_eq; simpl.
  rewrite Hok; simpl. rewrite lookup_insert_eq; simpl.
  destruct d; simpl; rewrite lookup_insert_eq; simpl;
    by rewrite insert_insert_eq, delete_fresh.
Qed.

Lemma rocksdb_open_for_read_only_failure path o e st s d w :
  rocksdb.DB_OpenForReadOnly o path (negb (e =? 0)%Z) (engine st)
  = (s, d, w) →
  rocksdb.ok s = false →
  rocksdb_open_for_read_only path (Some o) e st =
  Some ((make_status s, None),
        set_engine
          match d with Some d' => rocksdb.delete_DB d' w | None => w end
          st).
Proof.
  intros Hopen Hok.
  unfold rocksdb_open_for_read_only, delete_RocksDBHandle,
    destroy_RocksDBHandle.
  run_bridge. rewrite Hopen; simpl. rewrite lookup_insert_eq; simpl.
  rewrite Hok; simpl. rewrite lookup_insert_eq; simpl.
  destruct d; simpl; rewrite lookup_insert_eq; simpl;
    by rewrite insert_insert_eq, delete_fresh.
Qed.

Lemma rocksdb_open_transactional_failure path o st s t w :
  rocksdb.OptimisticTransactionDB_Open o path (engine st) = (s, t, w) →
  rocksdb.ok s = false →
  rocksdb_open_transactional path (Some o) st =
  Some ((make_status s, None),
        set_engine
          match t with
          | Some t' => rocksdb.delete_OptimisticTransactionDB t' w
          | None => w
          end st).
Proof.
  intros Hopen Hok.
  unfold rocksdb_open_transactional, delete_RocksDBHandle,
    destroy_RocksDBHandle.
  run_bridge. rewrite lookup_insert_eq; simpl.
  rewrite Hopen; simpl. rewrite lookup_insert_eq; simpl.
  rewrite Hok; simpl. rewrite lookup_insert_eq; simpl.
  destruct t; simpl; rewrite lookup_insert_eq; simpl;
    by rewrite !insert_insert_eq, delete_fresh.
Qed.

(** C4. In each of the three modes, when the engine's open fails the
    function returns the mapped status, which is not [OK], with [*db_out]
    null, and the state it leaves differs from the one it started in only
    by the engine's own world: the handle it had allocated is released
    (every table of live handles is as before) after deleting whatever
    engine object had been stored in it. *)
Theorem open_failure_releases_handle mode path o st s w :
  engine_open_undone mode o path (engine st) = (s, w) →
  rocksdb.ok s = false →
  open_in mode path (Some o) st
  = Some ((make_status s, None), set_engine w st)
  ∧ code (make_status s) ≠ RocksDBStatusOK
  ∧ db_handles (set_engine w st) = db_handles st.
Proof.
  intros Hopen Hok. split; [| split; [| reflexivity]].
  - destruct mode as [| e |]; simpl in Hopen |- *.
    + destruct (rocksdb.DB_Open o path (engine st)) as [[s' d] w'] eqn:He.
      simplify_eq. by apply rocksdb_open_failure.
    + destruct (rocksdb.DB_OpenForReadOnly o path _ (engine st))
        as [[s' d] w'] eqn:He.
      simplify_eq. by apply rocksdb_open_for_read_only_failure.
    + destruct (rocksdb.OptimisticTransactionDB_Open o path (engine st))
        as [[s' t] w'] eqn:He.
      simplify_eq. by apply rocksdb_open_transactional_failure.
  - unfold make_status. rewrite Hok. apply map_code_not_ok.
Qed.

(** ** Transactions *)

(** The handle an open function returns records the mode it was opened
    in; a transactional one holds the engine's transactional database. *)
Lemma open_in_handle mode path opts st r p st1 :
  open_in mode path opts st = Some ((r, Some p), st1) →
  ∃ h, db_handles st1 !! p = Some h
       ∧ (is_transactional h = true ↔ mode = Transactional)
       ∧ (mode = Transactional → is_Some (txn_db h)).
Proof.
  intros Hopen.
  destruct mode as [| e |]; simpl in Hopen; revert Hopen;
    (destruct opts as [o |];
     [| unfold rocksdb_open, rocksdb_open_for_read_only,
          rocksdb_open_transactional; run_bridge;
        try rewrite lookup_insert_eq; done]).
  - unfold rocksdb_open, delete_RocksDBHandle. run_bridge.
    destruct (rocksdb.DB_Open o path (engine st)) as [[s d] w]; simpl.
    rewrite lookup_insert_eq; simpl.
    destruct (rocksdb.ok s); simpl.
    + intros [= <- <- <-]; simpl. rewrite lookup_insert_eq.
      eexists; split; [done |]. simpl. by repeat split.
    + intros Hopen. repeat (case_match; simplify_eq/=).
  - unfold rocksdb_open_for_read_only, delete_RocksDBHandle. run_bridge.
    destruct (rocksdb.DB_OpenForReadOnly o path _ (engine st))
      as [[s d] w]; simpl.
    rewrite lookup_insert_eq; simpl.
    destruct (rocksdb.ok s); simpl.
    + intros [= <- <- <-]; simpl. rewrite lookup_insert_eq.
      eexists; split; [done |]. simpl. by repeat split.
    + intros Hopen. repeat (case_match; simplify_eq/=).
  - unfold rocksdb_open_transactional, delete_RocksDBHandle. run_bridge.
    rewrite lookup_insert_eq; simpl.
    destruct (rocksdb.OptimisticTransactionDB_Open o path (engine st))
      as [[s t] w]; simpl.
    rewrite lookup_insert_eq; simpl.
    destruct (rocksdb.ok s); simpl.
    + destruct t as [t |]; [| done]. simpl.
      rewrite lookup_insert_eq; simpl.
      intros [= <- <- <-]; simpl. rewrite lookup_insert_eq.
      eexists; split; [done |]. simpl. by repeat split; eauto.
    + intros Hopen. repeat (case_match; simplify_eq/=).
Qed.

(** The handle [rocksdb_open_transactional] returns holds the
    transactional database the engine opened, and its base database. *)
Lemma open_transactional_handle path opts st r p st1 :
  rocksdb_open_transactional path opts st = Some ((r, Some p), st1) →
  ∃ o s tdb w,
    opts = Some o
    ∧ rocksdb.OptimisticTransactionDB_Open o path (engine st)
      = (s, Some tdb, w)
    ∧ db_handles st1 !! p
      = Some (mkHandle (rocksdb.GetBaseDB tdb w) (Some tdb) true).
Proof.
  destruct opts as [o |];
    [| unfold rocksdb_open_transactional; run_bridge;
       rewrite lookup_insert_eq; done].
  unfold rocksdb_open_transactional, delete_RocksDBHandle. run_bridge.
  rewrite lookup_insert_eq; simpl.
  destruct (rocksdb.OptimisticTransactionDB_Open o path (engine st))
    as [[s t] w] eqn:He; simpl.
  rewrite lookup_insert_eq; simpl.
  destruct (rocksdb.ok s); simpl.
  - destruct t as [t |]; [| done]. simpl.
    rewrite lookup_insert_eq; simpl.
    intros [= <- <- <-]; simpl. rewrite lookup_insert_eq.
    by exists o, s, t, w.
  - intros Hopen. repeat (case_match; simplify_eq/=).
Qed.

(** C6. [rocksdb_transaction_begin] returns null on the null handle.  On
    a handle returned by one of the three open functions and still
    holding what that function stored, it is defined and returns a
    transaction handle exactly when the database was opened by
    [rocksdb_open_transactional]; otherwise it returns null and changes
    nothing.  The handle it returns for a transactional database was not
    live before, and afterwards holds the transaction that the engine's
    [BeginTransaction] created on the transactional database the open
    returned, with the caller's write options; nothing else changes but
    the engine world, as [BeginTransaction] left it. *)
Theorem transaction_begin_iff_transactional :
  (∀ opts st, rocksdb_transaction_begin None opts st = Some (None, st))
  ∧ (∀ mode path o st r p st1 st2 opts,
       open_in mode path o st = Some ((r, Some p), st1) →
       db_handles st2 !! p = db_handles st1 !! p →
       (∃ t st3,
          rocksdb_transaction_begin (Some p) opts st2 = Some (t, st3)
          ∧ (is_Some t ↔ mode = Transactional)
          ∧ (t = None → st3 = st2))
       ∧ (mode ≠ Transactional →
          rocksdb_transaction_begin (Some p) opts st2 = Some (None, st2))
       ∧ (mode = Transactional →
          ∃ o' s tdb w0 q,
            o = Some o'
            ∧ rocksdb.OptimisticTransactionDB_Open o' path (engine st)
              = (s, Some tdb, w0)
            ∧ transaction_handles st2 !! q = None
            ∧ rocksdb_transaction_begin (Some p) opts st2
              = (let '(t, w) :=
                   rocksdb.BeginTransaction tdb (writeOpts opts)
                     (engine st2) in
                 Some (Some q,
                       set_table transaction_kind
                         (<[q := mkTransactionHandle t]>
                            (transaction_handles st2))
                         (set_engine w st2))))).
Proof.
  split; [reflexivity |].
  intros mode path o st r p st1 st2 opts Hopen Hsame.
  destruct (open_in_handle _ _ _ _ _ _ _ Hopen) as (h & Hh & Hmode & Htdb).
  rewrite <- Hsame in Hh.
  assert (Hnull : mode ≠ Transactional →
    rocksdb_transaction_begin (Some p) opts st2 = Some (None, st2)).
  { intros Hm. unfold rocksdb_transaction_begin. run_bridge. rewrite Hh.
    destruct (is_transactional h) eqn:Htx;
      [by destruct Hm; apply Hmode | by destruct (txn_db h)]. }
  assert (Hbegin : mode = Transactional →
    ∃ o' s tdb w0 q,
      o = Some o'
      ∧ rocksdb.OptimisticTransactionDB_Open o' path (engine st)
        = (s, Some tdb, w0)
      ∧ transaction_handles st2 !! q = None
      ∧ rocksdb_transaction_begin (Some p) opts st2
        = (let '(t, w) :=
             rocksdb.BeginTransaction tdb (writeOpts opts) (engine st2) in
           Some (Some q,
                 set_table transaction_kind
                   (<[q := mkTransactionHandle t]>
                      (transaction_handles st2))
                   (set_engine w st2)))).
  { intros ->. simpl in Hopen.
    destruct (open_transactional_handle _ _ _ _ _ _ Hopen)
      as (o' & s & tdb & w0 & -> & Hengine & Hstored).
    rewrite <- Hsame in Hstored.
    exists o', s, tdb, w0, (fresh (dom (transaction_handles st2))).
    split; [reflexivity |]. split; [exact Hengine |].
    split; [apply fresh_not_live |].
    unfold rocksdb_transaction_begin. run_bridge. rewrite Hstored; simpl.
    destruct (rocksdb.BeginTransaction tdb (writeOpts opts) (engine st2))
      as [t w]; simpl.
    rewrite lookup_insert_eq; simpl. by rewrite insert_insert_eq. }
  split; [| split; [exact Hnull | exact Hbegin]].
  assert (Hm : mode = Transactional ∨ mode ≠ Transactional)
    by (destruct mode; [right | right | left]; done).
  destruct Hm as [Hm | Hm].
  - destruct (Hbegin Hm) as (o' & s & tdb & w0 & q & _ & _ & _ & Hrun).
    destruct (rocksdb.BeginTransaction tdb (writeOpts opts) (engine st2))
      as [t w].
    do 2 eexists. split; [exact Hrun |]. split; [by split; eauto |].
    discriminate.
  - exists None, st2. split; [exact (Hnull Hm) |].
    split; [| done]. split; [by intros [? [=]] | done].
Qed.

(** ** Point lookups *)

Lemma length_fresh_block n : String.length (fresh_block n) = n.
Proof. induction n; simpl; congruence. Qed.

Lemma take_bytes_all v : take_bytes (String.length v) v = v.
Proof. induction v; simpl; congruence. Qed.

Lemma drop_bytes_all v : drop_bytes (String.length v) v = EmptyString.
Proof. induction v; simpl; congruence. Qed.

Lemma append_empty v : (v ++ EmptyString)%string = v.
Proof.
  induction v as [| a v IH]; [reflexivity |].
  change (String a (v ++ EmptyString)%string = String a v).
  by rewrite IH.
Qed.

(** Copying a value into a fresh block of its size leaves the value. *)
Lemma copy_into_fresh_block v :
  (take_bytes (N.to_nat (size v)) v
   ++ drop_bytes (N.to_nat (size v)) (fresh_block (N.to_nat (size v))))%string
  = v.
Proof.
  unfold size. rewrite Nat2N.id, take_bytes_all.
  rewrite <- (length_fresh_block (String.length v)) at 1.
  by rewrite drop_bytes_all, append_empty.
Qed.

(** C3. On an open database, for every key: when the engine reports the
    key absent ([NotFound]) [rocksdb_get] returns [NotFound] with
    [*value_out] null and [*value_len_out] 0, and no block is allocated.
    When the engine finds the key, with a value of any length, zero
    included, and [malloc] answers the request with a block,
    [rocksdb_get] returns [OK] with [*value_len_out] the length of the
    value and [*value_out] a block that was not live before, holds a
    copy of the value and is left live for the caller; nothing else
    changes but the engine world. *)
Theorem rocksdb_get_outcome st p d opts key key_len s v w :
  open_db st p d →
  rocksdb.Get d (readOpts opts) (mkSlice key key_len) (engine st)
  = (s, v, w) →
  (rocksdb.ok s = false → rocksdb.IsNotFound s = true →
   rocksdb_get (Some p) opts key key_len st
   = Some ((mkStatus RocksDBStatusNotFound (strdup (rocksdb.ToString s)),
            None, 0%N),
           set_engine w st))
  ∧ (rocksdb.ok s = true → malloc_null st (size v) = false →
     ∃ b, buffers st !! b = None
          ∧ rocksdb_get (Some p) opts key key_len st
            = Some ((make_ok, Some b, size v),
                    set_table buffer_kind (<[b := v]> (buffers st))
                      (set_engine w st))).
Proof.
  intros Hopen Hget.
  assert (Hrun : rocksdb_get (Some p) opts key key_len st
    = (if rocksdb.ok s then
         value_out ← malloc (size v);
         match value_out with
         | Some b => memcpy b v (size v)
         | None => mret tt
         end;;
         mret (make_status s, value_out, size v)
       else mret (make_status s, None, 0%N)) (set_engine w st)).
  { unfold rocksdb_get.
    rewrite (bind_run _ _ _ _ _ (checked_db_open _ _ _ Hopen)).
    unfold call at 1. unfold mbind at 1, M_bind at 1. by rewrite Hget. }
  rewrite Hrun. split.
  - intros Hok Hnf. rewrite Hok. unfold make_status, map_code.
    by rewrite Hok, Hnf.
  - intros Hok Hmalloc. rewrite Hok.
    exists (fresh (dom (buffers st))). split; [apply fresh_not_live |].
    unfold malloc, memcpy, make_status. run_bridge.
    rewrite Hmalloc, Hok; simpl. rewrite lookup_insert_eq; simpl.
    assert (Hsz : size (fresh_block (N.to_nat (size v))) = size v).
    { unfold size. by rewrite length_fresh_block, N2Nat.id. }
    rewrite Hsz, N.leb_refl; simpl. rewrite lookup_insert_eq; simpl.
    by rewrite insert_insert_eq, copy_into_fresh_block.
Qed.

(** ** Approximate sizes *)

Section Ranges.

Variables (start_keys : list cptr) (start_key_lens : list N)
          (end_keys : list cptr) (end_key_lens : list N).

Let range_at' := range_at start_keys start_key_lens end_keys end_key_lens.

Lemma range_at_in_bounds i :
  (i < length start_keys)%nat → (i < length start_key_lens)%nat →
  (i < length end_keys)%nat → (i < length end_key_lens)%nat →
  is_Some (range_at' i).
Proof.
  intros H1 H2 H3 H4. unfold range_at', range_at.
  destruct (lookup_lt_is_Some_2 _ _ H1) as [? ->].
  destruct (lookup_lt_is_Some_2 _ _ H2) as [? ->].
  destruct (lookup_lt_is_Some_2 _ _ H3) as [? ->].
  destruct (lookup_lt_is_Some_2 _ _ H4) as [? ->].
  eauto.
Qed.

(** The loop appends, in order, the ranges the arrays describe. *)
Lemma collect_ranges_spec todo :
  ∀ i acc,
    (∀ j, (i ≤ j < i + todo)%nat → is_Some (range_at' j)) →
    ∃ rs,
      collect_ranges todo i acc
        start_keys start_key_lens end_keys end_key_lens
      = Some (acc ++ rs)
      ∧ length rs = todo
      ∧ ∀ j, (j < todo)%nat → rs !! j = range_at' (i + j)%nat.
Proof.
  induction todo as [| todo IH]; intros i acc Hin; simpl.
  - exists []. rewrite app_nil_r.
    split; [reflexivity |]. split; [reflexivity |]. intros j Hj; lia.
  - destruct (Hin i ltac:(lia)) as [r Hr].
    pose proof Hr as Hr'. unfold range_at', range_at in Hr'.
    destruct (start_keys !! i) as [sk |]; [| done].
    destruct (start_key_lens !! i) as [sl |]; [| done].
    destruct (end_keys !! i) as [ek |]; [| done].
    destruct (end_key_lens !! i) as [el |]; [| done].
    injection Hr' as Hr'. rewrite Hr'.
    destruct (IH (S i) (acc ++ [r])) as (rs & Hrs & Hlen & Hnth).
    { intros j Hj. apply Hin. lia. }
    exists (r :: rs). rewrite Hrs, <- app_assoc. simpl.
    split; [reflexivity |]. split; [by rewrite Hlen |].
    intros [| j] Hj; simpl.
    + by rewrite Nat.add_0_r.
    + rewrite Hnth by lia. f_equal. lia.
Qed.

End Ranges.

(** The engine's stores touch exactly the entries from [i] on, one per
    range. *)
Lemma store_sizes_spec d w ranges :
  ∀ i (sizes : list N),
    (i + length ranges ≤ length sizes)%nat →
    ∃ out,
      store_sizes d w ranges i sizes = Some out
      ∧ length out = length sizes
      ∧ (∀ j, (j < i ∨ i + length ranges ≤ j)%nat → out !! j = sizes !! j)
      ∧ (∀ j r, ranges !! j = Some r →
           out !! (i + j)%nat = Some (rocksdb.ApproximateSize d r w)).
Proof.
  induction ranges as [| r rest IH]; intros i sizes Hlen; simpl in *.
  - exists sizes. split; [reflexivity |]. split; [reflexivity |].
    split; [reflexivity |]. intros j r Hr. done.
  - destruct (decide (i < length sizes)%nat) as [Hi | Hi]; [| lia].
    destruct (IH (S i) (<[i := rocksdb.ApproximateSize d r w]> sizes))
      as (out & Hout & Hlen' & Hframe & Hwritten).
    { rewrite length_insert. lia. }
    exists out. rewrite length_insert in Hlen'.
    split; [exact Hout |]. split; [exact Hlen' |]. split.
    + intros j Hj. rewrite Hframe by lia.
      apply list_lookup_insert_ne. lia.
    + intros [| j] r' Hr'; simpl in Hr'.
      * injection Hr' as <-. rewrite Nat.add_0_r.
        rewrite Hframe by lia. by apply list_lookup_insert_eq.
      * replace (i + S j)%nat with (S i + j)%nat by lia.
        by apply Hwritten.
Qed.

(** C10. [rocksdb_get_approximate_sizes] returns with the caller's
    array and the state as they were when the handle is null, when it
    holds no engine database, or when [num_ranges] is not positive.
    Otherwise, on an open database and arrays that hold [num_ranges]
    entries, it is defined, leaves the state as it was, and the array
    afterwards has its length, its entries from [num_ranges] on
    unchanged, and in each entry below [num_ranges] the engine's estimate
    for the range the input arrays describe at that index. *)
Theorem approximate_sizes_frame
    num_ranges start_keys start_key_lens end_keys end_key_lens
    (sizes_out : list N) st :
  rocksdb_get_approximate_sizes None num_ranges
    start_keys start_key_lens end_keys end_key_lens sizes_out st
  = Some (sizes_out, st)
  ∧ (∀ p h,
       db_handles st !! p = Some h →
       db h = None ∨ (num_ranges ≤ 0)%Z →
       rocksdb_get_approximate_sizes (Some p) num_ranges
         start_keys start_key_lens end_keys end_key_lens sizes_out st
       = Some (sizes_out, st))
  ∧ (∀ p d,
       open_db st p d →
       (0 < num_ranges)%Z →
       (Z.to_nat num_ranges ≤ length start_keys)%nat →
       (Z.to_nat num_ranges ≤ length start_key_lens)%nat →
       (Z.to_nat num_ranges ≤ length end_keys)%nat →
       (Z.to_nat num_ranges ≤ length end_key_lens)%nat →
       (Z.to_nat num_ranges ≤ length sizes_out)%nat →
       ∃ sizes,
         rocksdb_get_approximate_sizes (Some p) num_ranges
           start_keys start_key_lens end_keys end_key_lens sizes_out st
         = Some (sizes, st)
         ∧ length sizes = length sizes_out
         ∧ (∀ j, (Z.to_nat num_ranges ≤ j)%nat →
              sizes !! j = sizes_out !! j)
         ∧ (∀ j, (j < Z.to_nat num_ranges)%nat →
              ∃ r, range_at start_keys start_key_lens
                     end_keys end_key_lens j = Some r
                   ∧ sizes !! j
                     = Some (rocksdb.ApproximateSize d r (engine st)))).
Proof.
  split; [reflexivity | split].
  - intros p h Hh Hguard. unfold rocksdb_get_approximate_sizes, checked_db.
    run_bridge. rewrite Hh; simpl.
    destruct (db h) as [d |]; [| reflexivity].
    destruct Hguard as [[=] | Hn].
    by rewrite (proj2 (Z.leb_le _ _) Hn).
  - intros p d Hopen Hn H1 H2 H3 H4 H5.
    unfold rocksdb_get_approximate_sizes.
    rewrite (bind_run _ _ _ _ _ (checked_db_open _ _ _ Hopen)).
    rewrite (proj2 (Z.leb_gt _ _) Hn).
    destruct (collect_ranges_spec start_keys start_key_lens
                end_keys end_key_lens (Z.to_nat num_ranges) 0 [])
      as (rs & -> & Hlen & Hnth).
    { intros j Hj. apply range_at_in_bounds; lia. }
    simpl.
    assert (Htake : take (Z.to_nat num_ranges) rs = rs)
      by (rewrite <- Hlen; apply firstn_all).
    rewrite Htake.
    destruct (store_sizes_spec d (engine st) rs 0 sizes_out)
      as (out & Hout & Hlen' & Hframe & Hwritten); [simpl; lia |].
    exists out. split.
    { unfold query, id, mbind, M_bind, mret, M_ret. by rewrite Hout. }
    split; [exact Hlen' |]. split.
    + intros j Hj. apply Hframe. right. simpl. lia.
    + intros j Hj. specialize (Hnth j ltac:(lia)). simpl in Hnth.
      destruct (range_at_in_bounds start_keys start_key_lens
                  end_keys end_key_lens j) as [r Hr]; try lia.
      exists r. split; [exact Hr |].
      rewrite Hr in Hnth. apply (Hwritten j r Hnth).
Qed.

(** ** What a call leaves alone *)

Ltac prim :=
  match goal with
  | H : load _ _ _ = Some _ |- _ => unfold load in H; simpl in H
  | H : store _ _ _ _ = Some _ |- _ => unfold store in H; simpl in H
  | H : release _ _ _ = Some _ |- _ => unfold release in H; simpl in H
  | H : new _ _ _ = Some _ |- _ => unfold new in H; simpl in H
  | H : call _ _ = Some _ |- _ => unfold call in H
  | H : query _ _ = Some _ |- _ => unfold query in H
  | H : update _ _ = Some _ |- _ => unfold update in H
  | H : match ?x with _ => _ end = Some _ |- _ => destruct x eqn:?
  | H : (let '(_, _) := ?p in _) = Some _ |- _ => destruct p eqn:?
  | H : (if ?x then _ else _) = Some _ |- _ => destruct x eqn:?
  | H : None = Some _ |- _ => discriminate H
  | H : Some _ = Some _ |- _ => injection H as ? ?; subst
  end.

Ltac unfold_calls H :=
  unfold rocksdb_is_transactional, rocksdb_put, rocksdb_get, rocksdb_delete,
    rocksdb_key_may_exist, rocksdb_batch_put, rocksdb_batch_delete,
    rocksdb_batch_delete_range, rocksdb_batch_clear, on_batch,
    rocksdb_batch_count, rocksdb_batch_data_size, rocksdb_write_batch,
    rocksdb_iterator_valid, rocksdb_iterator_seek_to_first,
    rocksdb_iterator_seek_to_last, rocksdb_iterator_seek,
    rocksdb_iterator_seek_for_prev, rocksdb_iterator_next,
    rocksdb_iterator_prev, on_iter, rocksdb_iterator_key,
    rocksdb_iterator_value, rocksdb_iterator_status,
    rocksdb_transaction_put, rocksdb_transaction_delete,
    rocksdb_transaction_commit, rocksdb_transaction_rollback,
    rocksdb_transaction_set_savepoint,
    rocksdb_transaction_rollback_to_savepoint, rocksdb_compact_range,
    rocksdb_flush, rocksdb_get_property, rocksdb_get_approximate_sizes,
    checked_db, checked_iter, checked_txn in H.

(** X1. The functions that only read (is_transactional, batch_count,
    batch_data_size, iterator_valid, iterator_key, iterator_value,
    iterator_status, get_property, get_approximate_sizes) leave the whole
    state as it was whenever they are defined: the engine world, every
    handle, and the [malloc] blocks; the pointers the iterator accessors
    and [get_approximate_sizes] hand back come with no allocation. *)
Theorem read_only_calls_change_nothing c st o st' :
  read_only c = true → run c st = Some (o, st') → st' = st.
Proof.
  intros Hro Hrun.
  destruct c; try discriminate Hro; simpl in Hrun; unfold_calls Hrun;
    repeat step; repeat prim; simplify_eq/=; reflexivity.
Qed.

(** X2. The data operations (put, delete, key_may_exist, write_batch, the
    iterator seeks and steps, the transaction put, delete, commit,
    rollback and savepoint calls, compact_range, flush) change nothing but
    the engine world: no handle object is created, changed or released and
    no buffer is allocated. *)
Theorem engine_only_calls_keep_heap c st o st' :
  engine_only c = true → run c st = Some (o, st') → only_engine st st'.
Proof.
  intros Heo Hrun. unfold only_engine.
  destruct c; try discriminate Heo; simpl in Hrun; unfold_calls Hrun;
    repeat step; repeat prim; simplify_eq/=;
    repeat match goal with x : State |- _ => destruct x end; reflexivity.
Qed.

(** ** Batches *)

Lemma set_table_batch_same st p h :
  batch_handles st !! p = Some h →
  set_table batch_kind (<[p := h]> (batch_handles st)) st = st.
Proof. intros Hp. simpl. rewrite (insert_id _ _ _ Hp). by destruct st. Qed.

Lemma edit_call_live st p wb e :
  batch_handles st !! p = Some (mkBatchHandle wb) →
  edit_call (Some p) e st
  = Some (tt, set_table batch_kind
                (<[p := mkBatchHandle (edit_batch wb e)]> (batch_handles st))
                st).
Proof.
  intros Hp.
  destruct e; simpl;
    unfold rocksdb_batch_put, rocksdb_batch_delete,
      rocksdb_batch_delete_range, rocksdb_batch_clear, on_batch;
    run_bridge; rewrite Hp; simpl; by rewrite Hp.
Qed.

(** X3. An edit of a batch (put, delete, delete_range, clear) changes that
    one batch handle and nothing else: the engine world, every other
    batch, every other handle and the buffers are as before.  A batch has
    no effect on the engine until it is written. *)
Theorem batch_edits_touch_only_their_batch c b st o st' :
  edits_batch c = Some b → run c st = Some (o, st') →
  engine st' = engine st
  ∧ db_handles st' = db_handles st
  ∧ iterator_handles st' = iterator_handles st
  ∧ transaction_handles st' = transaction_handles st
  ∧ snapshot_handles st' = snapshot_handles st
  ∧ buffers st' = buffers st
  ∧ (∀ q, b ≠ Some q → batch_handles st' !! q = batch_handles st !! q).
Proof.
  intros Hb Hrun.
  destruct c; try discriminate Hb; simpl in Hb, Hrun; simplify_eq;
    unfold_calls Hrun; repeat step; repeat prim; simplify_eq/=;
    repeat split; try reflexivity;
    intros q Hq; try reflexivity;
    apply lookup_insert_ne; congruence.
Qed.

(** X4. Edits accumulate in call order: after the calls for a list of
    edits on a live batch, the handle holds the engine batch obtained by
    applying the corresponding [WriteBatch] methods from left to right,
    the rest of the state is as before, [rocksdb_batch_count] and
    [rocksdb_batch_data_size] report that batch, and [rocksdb_write_batch]
    on an open database hands exactly that batch to the engine's [Write],
    returns its status and leaves the batch as it is. *)
Theorem batch_edits_accumulate es :
  ∀ st p wb,
    batch_handles st !! p = Some (mkBatchHandle wb) →
    let final := foldl edit_batch wb es in
    let st1 := set_table batch_kind
                 (<[p := mkBatchHandle final]> (batch_handles st)) st in
    edit_calls (Some p) es st = Some (tt, st1)
    ∧ rocksdb_batch_count (Some p) st1
      = Some (rocksdb.WriteBatch_Count final, st1)
    ∧ rocksdb_batch_data_size (Some p) st1
      = Some (rocksdb.WriteBatch_GetDataSize final, st1)
    ∧ (∀ q d opts,
         open_db st q d →
         rocksdb_write_batch (Some q) opts (Some p) st1
         = let '(s, w) :=
             rocksdb.DB_Write d (writeOpts opts) final (engine st) in
           Some (make_status s, set_engine w st1)).
Proof.
  induction es as [| e es IH]; intros st p wb Hp;
    cbn [foldl edit_calls]; cbv zeta.
  - rewrite (set_table_batch_same _ _ _ Hp).
    split; [reflexivity |].
    unfold rocksdb_batch_count, rocksdb_batch_data_size. run_bridge.
    rewrite Hp; simpl. split; [reflexivity | split; [reflexivity |]].
    intros q d opts Hopen. unfold rocksdb_write_batch.
    rewrite (bind_run _ _ _ _ _ (checked_db_open _ _ _ Hopen)).
    run_bridge. rewrite Hp; simpl.
    by destruct (rocksdb.DB_Write _ _ _ _).
  - set (st0 := set_table batch_kind
                  (<[p := mkBatchHandle (edit_batch wb e)]> (batch_handles st))
                  st).
    assert (Hp0 : batch_handles st0 !! p
                  = Some (mkBatchHandle (edit_batch wb e)))
      by (simpl; apply lookup_insert_eq).
    destruct (IH st0 p (edit_batch wb e) Hp0) as (Hrun & Hcount & Hsize & Hw).
    cbv zeta in Hrun, Hcount, Hsize, Hw.
    assert (Hst : set_table batch_kind
                    (<[p := mkBatchHandle
                               (foldl edit_batch (edit_batch wb e) es)]>
                       (batch_handles st0)) st0
                  = set_table batch_kind
                      (<[p := mkBatchHandle
                                 (foldl edit_batch (edit_batch wb e) es)]>
                         (batch_handles st)) st)
      by (simpl; by rewrite insert_insert_eq).
    rewrite Hst in Hrun, Hcount, Hsize, Hw.
    split; [| split; [exact Hcount | split; [exact Hsize |]]].
    + rewrite (bind_run _ _ _ _ _ (edit_call_live _ _ _ e Hp)). exact Hrun.
    + intros q d opts Hopen. apply (Hw q d opts).
      destruct Hopen as (h & Hh & Hd). by exists h.
Qed.

(** X5. [rocksdb_batch_create] returns a handle that was not live,
    holding the empty engine batch, and touches nothing else;
    [rocksdb_batch_destroy] of that handle gives back the state from
    before the create; destroying it once more, when it is no longer
    live, is undefined. *)
Theorem batch_create_destroy st :
  ∃ p st1,
    batch_handles st !! p = None
    ∧ rocksdb_batch_create st = Some (Some p, st1)
    ∧ batch_handles st1 = <[p := mkBatchHandle rocksdb.WriteBatch_new]>
                            (batch_handles st)
    ∧ rocksdb_batch_count (Some p) st1
      = Some (rocksdb.WriteBatch_Count rocksdb.WriteBatch_new, st1)
    ∧ rocksdb_batch_destroy (Some p) st1 = Some (tt, st)
    ∧ rocksdb_batch_destroy (Some p) st = None.
Proof.
  exists (fresh (dom (batch_handles st))). eexists.
  split; [apply fresh_not_live |].
  split; [reflexivity |]. split; [reflexivity |].
  unfold rocksdb_batch_count, rocksdb_batch_destroy. run_bridge.
  rewrite lookup_insert_eq, fresh_not_live; simpl.
  split; [reflexivity |]. split; [| reflexivity].
  rewrite delete_fresh. by destruct st.
Qed.

(** ** The life of a database handle *)

Lemma open_in_success mode path o st s h w :
  engine_open mode o path (engine st) = (s, Some h, w) →
  rocksdb.ok s = true →
  open_in mode path (Some o) st
  = Some ((make_ok, Some (fresh (dom (db_handles st)))),
          set_table db_kind
            (<[fresh (dom (db_handles st)) := h]> (db_handles st))
            (set_engine w st)).
Proof.
  intros Hopen Hok. destruct mode as [| e |]; simpl in Hopen |- *.
  - destruct (rocksdb.DB_Open o path (engine st)) as [[s' d] w'] eqn:He.
    simplify_eq. unfold rocksdb_open, make_status. run_bridge.
    rewrite He; simpl. rewrite lookup_insert_eq; simpl.
    rewrite Hok; simpl. by rewrite insert_insert_eq.
  - destruct (rocksdb.DB_OpenForReadOnly o path _ (engine st))
      as [[s' d] w'] eqn:He.
    simplify_eq. unfold rocksdb_open_for_read_only, make_status. run_bridge.
    rewrite He; simpl. rewrite lookup_insert_eq; simpl.
    rewrite Hok; simpl. by rewrite insert_insert_eq.
  - destruct (rocksdb.OptimisticTransactionDB_Open o path (engine st))
      as [[s' t] w'] eqn:He.
    destruct t as [t |]; simplify_eq.
    unfold rocksdb_open_transactional, make_status. run_bridge.
    rewrite lookup_insert_eq; simpl. rewrite He; simpl.
    rewrite lookup_insert_eq; simpl. rewrite Hok; simpl.
    rewrite lookup_insert_eq; simpl. by rewrite !insert_insert_eq.
Qed.

Lemma open_in_failure mode path o st s h w :
  engine_open mode o path (engine st) = (s, h, w) →
  rocksdb.ok s = false →
  ∃ w', open_in mode path (Some o) st
        = Some ((make_status s, None), set_engine w' st).
Proof.
  intros Hopen Hok. destruct mode as [| e |]; simpl in Hopen |- *.
  - destruct (rocksdb.DB_Open o path (engine st)) as [[s' d] w'] eqn:He.
    simplify_eq. eexists. by apply rocksdb_open_failure.
  - destruct (rocksdb.DB_OpenForReadOnly o path _ (engine st))
      as [[s' d] w'] eqn:He.
    simplify_eq. eexists. by apply rocksdb_open_for_read_only_failure.
  - destruct (rocksdb.OptimisticTransactionDB_Open o path (engine st))
      as [[s' t] w'] eqn:He.
    simplify_eq. eexists. by apply rocksdb_open_transactional_failure.
Qed.

Lemma open_in_undefined mode path st :
  open_in mode path None st = None.
Proof.
  destruct mode; simpl;
    unfold rocksdb_open, rocksdb_open_for_read_only,
      rocksdb_open_transactional; run_bridge;
    try rewrite lookup_insert_eq; reflexivity.
Qed.

Lemma open_in_transactional_null path o st s w :
  rocksdb.OptimisticTransactionDB_Open o path (engine st) = (s, None, w) →
  rocksdb.ok s = true →
  rocksdb_open_transactional path (Some o) st = None.
Proof.
  intros He Hok. unfold rocksdb_open_transactional. run_bridge.
  rewrite lookup_insert_eq; simpl. rewrite He; simpl.
  rewrite lookup_insert_eq; simpl. by rewrite Hok.
Qed.

(** The shapes a defined open can leave: the failure shape and the
    success shape. *)
Lemma open_in_cases mode path opts st r d st' :
  open_in mode path opts st = Some ((r, d), st') →
  (∃ s w, rocksdb.ok s = false ∧ r = make_status s ∧ d = None
          ∧ st' = set_engine w st)
  ∨ (∃ h w, r = make_ok ∧ d = Some (fresh (dom (db_handles st)))
            ∧ is_transactional h = is_transactional_mode mode
            ∧ st' = set_table db_kind
                      (<[fresh (dom (db_handles st)) := h]> (db_handles st))
                      (set_engine w st)).
Proof.
  intros Hrun. destruct opts as [o |];
    [| by rewrite open_in_undefined in Hrun].
  destruct (engine_open mode o path (engine st)) as [[s h] w] eqn:He.
  destruct (rocksdb.ok s) eqn:Hok.
  - destruct h as [h |].
    + rewrite (open_in_success _ _ _ _ _ _ _ He Hok) in Hrun.
      right. exists h, w. simplify_eq. repeat split.
      destruct mode as [| e |]; simpl in He;
        repeat (case_match; simplify_eq/=); reflexivity.
    + destruct mode as [| e |]; simpl in He;
        repeat (case_match; simplify_eq/=).
      by rewrite (open_in_transactional_null _ _ _ _ _ ltac:(eassumption) Hok)
        in Hrun.
  - destruct (open_in_failure _ _ _ _ _ _ _ He Hok) as [w' Hfail].
    rewrite Hfail in Hrun. left. exists s, w'. by simplify_eq.
Qed.

Lemma open_in_keeps_live mode path opts st r d st' q h :
  open_in mode path opts st = Some ((r, d), st') →
  db_handles st !! q = Some h → db_handles st' !! q = Some h.
Proof.
  intros Hrun Hq.
  destruct (open_in_cases _ _ _ _ _ _ _ Hrun)
    as [(s & w & _ & _ & _ & ->) | (h' & w & _ & _ & _ & ->)];
    simpl; [exact Hq |].
  rewrite lookup_insert_ne; [exact Hq |].
  intros Heq. rewrite <- Heq, fresh_not_live in Hq. discriminate Hq.
Qed.

(** X6. Whenever one of the three open functions returns, [*db_out] is
    not null exactly when the returned code is [OK]; a handle it returns
    was not live before and is live afterwards, and every handle that was
    live before is still live with the contents it had.  With a null
    options pointer the open functions are undefined. *)
Theorem open_returns_handle_iff_ok mode path opts st r d st' :
  open_in mode path opts st = Some ((r, d), st') →
  (is_Some d ↔ code r = RocksDBStatusOK)
  ∧ (∀ p, d = Some p →
       db_handles st !! p = None ∧ is_Some (db_handles st' !! p))
  ∧ (∀ q h, db_handles st !! q = Some h → db_handles st' !! q = Some h)
  ∧ is_Some opts.
Proof.
  intros Hrun. split; [| split; [| split]].
  - destruct (open_in_cases _ _ _ _ _ _ _ Hrun)
      as [(s & w & Hok & -> & -> & _) | (h & w & -> & -> & _)].
    + unfold make_status. rewrite Hok. simpl.
      pose proof (map_code_not_ok s). split; [by intros [? [=]] | done].
    + split; [done | by eauto].
  - intros p ->.
    destruct (open_in_cases _ _ _ _ _ _ _ Hrun)
      as [(s & w & _ & _ & [=] & _) | (h & w & _ & [= ->] & _ & ->)].
    split; [apply fresh_not_live |]. simpl. rewrite lookup_insert_eq. eauto.
  - intros q h. exact (open_in_keeps_live _ _ _ _ _ _ _ _ _ Hrun).
  - destruct opts; [eauto | by rewrite open_in_undefined in Hrun].
Qed.

(** X7. [rocksdb_is_transactional] answers 0 on the null handle and, on
    a handle an open function returned, 1 exactly when that was
    [rocksdb_open_transactional]. *)
Theorem is_transactional_reports_mode mode path opts st r p st1 :
  open_in mode path opts st = Some ((r, Some p), st1) →
  rocksdb_is_transactional (Some p) st1
  = Some (if is_transactional_mode mode then 1%Z else 0%Z, st1)
  ∧ rocksdb_is_transactional None st1 = Some (0%Z, st1).
Proof.
  intros Hrun. split; [| reflexivity].
  destruct (open_in_cases _ _ _ _ _ _ _ Hrun)
    as [(s & w & _ & _ & [=] & _) | (h & w & _ & [= ->] & Hmode & ->)].
  unfold rocksdb_is_transactional. run_bridge.
  rewrite lookup_insert_eq; simpl. by rewrite Hmode.
Qed.

(** X8. Open then close: [rocksdb_close] of a handle an open function
    returned releases it, so that the state differs from the one before
    the open in the engine world only; the destructor deletes one engine
    object, the transactional database of a transactional handle and
    otherwise the database, never both.  Closing the handle once more,
    when it is no longer live, is undefined; closing the null handle does
    nothing. *)
Theorem open_close_round_trip mode path o st s h w :
  engine_open mode o path (engine st) = (s, Some h, w) →
  rocksdb.ok s = true →
  ∃ p st1 st2,
    open_in mode path (Some o) st = Some ((make_ok, Some p), st1)
    ∧ rocksdb_close (Some p) st1 = Some (tt, st2)
    ∧ st2 = set_engine (disposed h w) st
    ∧ rocksdb_close (Some p) st2 = None
    ∧ rocksdb_close None st2 = Some (tt, st2).
Proof.
  intros He Hok. do 3 eexists.
  split; [exact (open_in_success _ _ _ _ _ _ _ He Hok) |].
  assert (Hclose :
    rocksdb_close (Some (fresh (dom (db_handles st))))
      (set_table db_kind
         (<[fresh (dom (db_handles st)) := h]> (db_handles st))
         (set_engine w st))
    = Some (tt, set_engine (disposed h w) st)).
  { unfold rocksdb_close, delete_RocksDBHandle, destroy_RocksDBHandle,
      disposed.
    run_bridge. rewrite lookup_insert_eq; simpl.
    destruct (is_transactional h), (txn_db h), (db h); simpl;
      rewrite lookup_insert_eq; simpl; by rewrite delete_fresh. }
  split; [exact Hclose |]. split; [reflexivity |].
  split; [| reflexivity].
  unfold rocksdb_close, delete_RocksDBHandle. run_bridge.
  by rewrite fresh_not_live.
Qed.

Ltac unfold_lifecycle H :=
  unfold rocksdb_get, rocksdb_batch_destroy, rocksdb_iterator_create,
    rocksdb_iterator_destroy, rocksdb_transaction_begin,
    rocksdb_transaction_destroy, rocksdb_transaction_get,
    rocksdb_transaction_get_for_update, transaction_read,
    rocksdb_transaction_create_iterator, rocksdb_create_snapshot,
    rocksdb_release_snapshot,
    malloc, memcpy, checked_db, checked_iter, checked_txn in H.

(** Apart from the open functions and [rocksdb_close], no operation
    allocates, changes or releases a database handle. *)
Lemma run_keeps_db_handles c st o st' :
  run c st = Some (o, st') →
  (∀ path opts, c ≠ c_open path opts) →
  (∀ path opts e, c ≠ c_open_for_read_only path opts e) →
  (∀ path opts, c ≠ c_open_transactional path opts) →
  (∀ d, c ≠ c_close d) →
  db_handles st' = db_handles st.
Proof.
  intros Hrun H1 H2 H3 H4.
  destruct c; try congruence; clear H1 H2 H3 H4; simpl in Hrun;
    unfold_calls Hrun; unfold_lifecycle Hrun;
    repeat step; repeat prim; repeat step; repeat prim;
    simplify_eq/=; reflexivity.
Qed.

(** X9. A database handle stays as it is: whatever operation runs, a
    handle that was live is still live afterwards and holds the same
    engine pointers and the same mode flag, unless the operation is
    [rocksdb_close] of that very handle. *)
Theorem db_handle_stable c st o st' p h :
  run c st = Some (o, st') →
  db_handles st !! p = Some h →
  c ≠ c_close (Some p) →
  db_handles st' !! p = Some h.
Proof.
  intros Hrun Hp Hc.
  destruct c;
    try (rewrite (run_keeps_db_handles _ _ _ _ Hrun); [exact Hp | done..]).
  - simpl in Hrun. apply bind_Some in Hrun as ([r d] & st1 & Hopen & Hret).
    apply ret_Some in Hret as [_ <-].
    exact (open_in_keeps_live ReadWrite _ _ _ _ _ _ _ _ Hopen Hp).
  - simpl in Hrun. apply bind_Some in Hrun as ([r d] & st1 & Hopen & Hret).
    apply ret_Some in Hret as [_ <-].
    exact (open_in_keeps_live (ReadOnly error_if_wal_exists)
             _ _ _ _ _ _ _ _ Hopen Hp).
  - simpl in Hrun. apply bind_Some in Hrun as ([r d] & st1 & Hopen & Hret).
    apply ret_Some in Hret as [_ <-].
    exact (open_in_keeps_live Transactional _ _ _ _ _ _ _ _ Hopen Hp).
  - simpl in Hrun. unfold rocksdb_close, delete_RocksDBHandle,
      destroy_RocksDBHandle in Hrun.
    destruct db_ref as [q |]; repeat step; repeat prim; repeat step;
      repeat prim; simplify_eq/=; try exact Hp;
      (rewrite lookup_delete_ne; [exact Hp | congruence]).
Qed.

(** ** The life of iterator, transaction and snapshot handles *)

Lemma iterator_destroy_fresh st i w :
  let q := fresh (dom (iterator_handles st)) in
  let st1 := set_table iterator_kind
               (<[q := mkIteratorHandle i]> (iterator_handles st))
               (set_engine w st) in
  rocksdb_iterator_destroy (Some q) st1
  = Some (tt, set_engine (iterator_disposed i w) st)
  ∧ rocksdb_iterator_valid (Some q) st1
    = Some (match i with
            | Some i' => if rocksdb.Valid i' w then 1%Z else 0%Z
            | None => 0%Z
            end, st1).
Proof.
  cbv zeta. unfold rocksdb_iterator_destroy, rocksdb_iterator_valid,
    checked_iter.
  run_bridge. rewrite lookup_insert_eq; simpl. split.
  - destruct i; simpl; rewrite lookup_insert_eq; simpl;
      by rewrite delete_fresh.
  - by destruct i.
Qed.

(** X10. [rocksdb_iterator_create] on an open database, and
    [rocksdb_transaction_create_iterator] on a live transaction, return a
    handle that was not live, wrapping whatever the engine returned, a
    null engine iterator included: such a handle is not null and reports
    not valid.  Nothing else changes but the engine world, as the
    engine's call left it.  [rocksdb_iterator_destroy] of the handle
    deletes the engine iterator, if there is one, and releases the
    handle: the state is then the one before the create, with the engine
    world as [delete] of the iterator left it.  Destroying the handle
    once more is undefined. *)
Theorem iterator_create_destroy st opts :
  (∀ p d i w,
     open_db st p d →
     rocksdb.NewIterator d (readOpts opts) (engine st) = (i, w) →
     ∃ q st1,
       iterator_handles st !! q = None
       ∧ st1 = set_table iterator_kind
                 (<[q := mkIteratorHandle i]> (iterator_handles st))
                 (set_engine w st)
       ∧ rocksdb_iterator_create (Some p) opts st = Some (Some q, st1)
       ∧ (i = None → rocksdb_iterator_valid (Some q) st1 = Some (0%Z, st1))
       ∧ rocksdb_iterator_destroy (Some q) st1
         = Some (tt, set_engine (iterator_disposed i w) st)
       ∧ rocksdb_iterator_destroy (Some q)
           (set_engine (iterator_disposed i w) st) = None)
  ∧ (∀ p t i w,
       transaction_handles st !! p = Some (mkTransactionHandle (Some t)) →
       rocksdb.Transaction_GetIterator t (readOpts opts) (engine st)
       = (i, w) →
       ∃ q st1,
         iterator_handles st !! q = None
         ∧ st1 = set_table iterator_kind
                   (<[q := mkIteratorHandle i]> (iterator_handles st))
                   (set_engine w st)
         ∧ rocksdb_transaction_create_iterator (Some p) opts st
           = Some (Some q, st1)
         ∧ (i = None →
            rocksdb_iterator_valid (Some q) st1 = Some (0%Z, st1))
         ∧ rocksdb_iterator_destroy (Some q) st1
           = Some (tt, set_engine (iterator_disposed i w) st)
         ∧ rocksdb_iterator_destroy (Some q)
             (set_engine (iterator_disposed i w) st) = None).
Proof.
  assert (Hdouble : ∀ w,
    rocksdb_iterator_destroy (Some (fresh (dom (iterator_handles st))))
      (set_engine w st) = None).
  { intros w. unfold rocksdb_iterator_destroy. run_bridge.
    by rewrite fresh_not_live. }
  split.
  - intros p d i w Hopen Hnew.
    destruct (iterator_destroy_fresh st i w) as [Hdestroy Hvalid].
    cbv zeta in Hdestroy, Hvalid.
    exists (fresh (dom (iterator_handles st))). eexists.
    split; [apply fresh_not_live |]. split; [reflexivity |]. split.
    { unfold rocksdb_iterator_create.
      rewrite (bind_run _ _ _ _ _ (checked_db_open _ _ _ Hopen)).
      run_bridge. rewrite Hnew; simpl. rewrite lookup_insert_eq; simpl.
      by rewrite insert_insert_eq. }
    split; [intros ->; exact Hvalid |].
    split; [exact Hdestroy | apply Hdouble].
  - intros p t i w Hp Hnew.
    destruct (iterator_destroy_fresh st i w) as [Hdestroy Hvalid].
    cbv zeta in Hdestroy, Hvalid.
    exists (fresh (dom (iterator_handles st))). eexists.
    split; [apply fresh_not_live |]. split; [reflexivity |]. split.
    { unfold rocksdb_transaction_create_iterator, checked_txn.
      run_bridge. rewrite Hp; simpl. rewrite Hnew; simpl.
      rewrite lookup_insert_eq; simpl. by rewrite insert_insert_eq. }
    split; [intros ->; exact Hvalid |].
    split; [exact Hdestroy | apply Hdouble].
Qed.


(** X12. [rocksdb_create_snapshot] on an open database returns a handle
    that was not live, wrapping the engine's snapshot.
    [rocksdb_release_snapshot] with that database releases the snapshot in
    the engine, if the engine gave one, and frees the handle.  With a
    null database it frees the handle and leaves the engine as it is, the
    snapshot still held; with a null snapshot handle it does nothing. *)
Theorem snapshot_create_release st p d sn w :
  open_db st p d →
  rocksdb.GetSnapshot d (engine st) = (sn, w) →
  ∃ q st1,
    snapshot_handles st !! q = None
    ∧ rocksdb_create_snapshot (Some p) st = Some (Some q, st1)
    ∧ snapshot_handles st1 !! q = Some (mkSnapshotHandle sn)
    ∧ rocksdb_release_snapshot (Some p) (Some q) st1
      = Some (tt, set_engine
                    match sn with
                    | Some s => rocksdb.ReleaseSnapshot d s w
                    | None => w
                    end st)
    ∧ rocksdb_release_snapshot None (Some q) st1
      = Some (tt, set_engine w st)
    ∧ rocksdb_release_snapshot (Some p) None st1 = Some (tt, st1).
Proof.
  intros Hopen Hsnap. pose proof Hopen as (h & Hh & Hd).
  exists (fresh (dom (snapshot_handles st))). eexists.
  split; [apply fresh_not_live |]. split.
  { unfold rocksdb_create_snapshot.
    rewrite (bind_run _ _ _ _ _ (checked_db_open _ _ _ Hopen)).
    run_bridge. rewrite Hsnap; simpl. rewrite lookup_insert_eq; simpl.
    by rewrite insert_insert_eq. }
  split; [simpl; apply lookup_insert_eq |].
  unfold rocksdb_release_snapshot, checked_db. run_bridge.
  rewrite Hh, Hd; simpl. rewrite lookup_insert_eq; simpl.
  split; [| split; [| reflexivity]].
  - destruct sn; simpl; rewrite lookup_insert_eq; simpl;
      by rewrite delete_fresh.
  - rewrite lookup_insert_eq; simpl. by rewrite delete_fresh.
Qed.

(** ** Buffers of the point lookups *)

Lemma hand_out_cases s v st :
  hand_out s v st
  = if rocksdb.ok s then
      if malloc_null st (size v) then Some ((make_ok, None, size v), st)
      else Some ((make_ok, Some (fresh (dom (buffers st))), size v),
                 set_table buffer_kind
                   (<[fresh (dom (buffers st)) := v]> (buffers st)) st)
    else Some ((make_status s, None, 0%N), st).
Proof.
  unfold hand_out, make_status. destruct (rocksdb.ok s) eqn:Hok;
    [| reflexivity].
  unfold malloc, memcpy. run_bridge.
  destruct (malloc_null st (size v)) eqn:Hmalloc; simpl.
  - reflexivity.
  - rewrite lookup_insert_eq; simpl.
    assert (Hsz : size (fresh_block (N.to_nat (size v))) = size v).
    { unfold size. by rewrite length_fresh_block, N2Nat.id. }
    rewrite Hsz, N.leb_refl; simpl. rewrite lookup_insert_eq; simpl.
    by rewrite insert_insert_eq, copy_into_fresh_block.
Qed.

Lemma hand_out_result s v st r b n st' :
  hand_out s v st = Some ((r, b, n), st') →
  (code r ≠ RocksDBStatusOK → b = None ∧ n = 0%N ∧ st' = st)
  ∧ (b = None → st' = st)
  ∧ (∀ q, b = Some q →
       code r = RocksDBStatusOK ∧ buffers st !! q = None
       ∧ ∃ v', buffers st' !! q = Some v' ∧ size v' = n
               ∧ st' = set_table buffer_kind (<[q := v']> (buffers st)) st).
Proof.
  rewrite hand_out_cases. intros Hrun.
  destruct (rocksdb.ok s) eqn:Hok;
    [destruct (malloc_null st (size v)) |]; simplify_eq.
  all: split; [first [done | intros Hne; by destruct Hne] |];
    (split; [done |]); intros q Hq; simplify_eq.
  split; [reflexivity |]. split; [apply fresh_not_live |].
  exists v. simpl. by rewrite lookup_insert_eq.
Qed.

(** X13. For the three point lookups ([rocksdb_get],
    [rocksdb_transaction_get], [rocksdb_transaction_get_for_update]),
    whatever the status: when the code is not [OK] the out-parameters are
    the null pointer and length 0; a buffer that is handed out comes with
    [OK], was not live before the call, and holds exactly
    [*value_len_out] bytes; no handle and no block that was live before
    is changed. *)
Theorem lookup_buffer_discipline c st r b n st' :
  looks_up c = true →
  run c st = Some (ReturnedValue r b n, st') →
  (code r ≠ RocksDBStatusOK → b = None ∧ n = 0%N)
  ∧ (∀ q, b = Some q →
       code r = RocksDBStatusOK ∧ buffers st !! q = None
       ∧ ∃ v, buffers st' !! q = Some v ∧ size v = n)
  ∧ (∀ q v, buffers st !! q = Some v → buffers st' !! q = Some v)
  ∧ db_handles st' = db_handles st
  ∧ iterator_handles st' = iterator_handles st
  ∧ batch_handles st' = batch_handles st
  ∧ transaction_handles st' = transaction_handles st
  ∧ snapshot_handles st' = snapshot_handles st.
Proof.
  intros Hc Hrun.
  assert (Hgen :
    (∃ st0 s v,
       hand_out s v st0 = Some ((r, b, n), st') ∧ only_engine st st0)
    ∨ (code r = RocksDBStatusInvalidArgument ∧ b = None ∧ n = 0%N
       ∧ st' = st)).
  { destruct c; try discriminate Hc; simpl in Hrun;
      unfold rocksdb_get, rocksdb_transaction_get,
        rocksdb_transaction_get_for_update, transaction_read in Hrun;
      fold (hand_out) in Hrun.
    all: apply bind_Some in Hrun as ([[r' b'] n'] & st1 & Hrun & Hret);
      apply ret_Some in Hret as [[= -> -> ->] ->].
    all: apply bind_Some in Hrun as (x & st1 & Hcheck & Hrun).
    all: assert (st1 = st) as ->
        by (unfold checked_db, checked_txn in Hcheck;
            repeat step; repeat prim; by simplify_eq).
    all: destruct x as [x |];
      [| apply ret_Some in Hrun as [[= <- <- <-] <-]; right; done].
    all: apply bind_Some in Hrun as ([s v] & st1 & Hcall & Hrun).
    all: left; exists st1, s, v; split; [exact Hrun |].
    all: unfold call in Hcall; repeat prim; unfold only_engine;
      by destruct st. }
  destruct Hgen as [(st0 & s & v & Hout & Hst0) | (Hcode & -> & -> & ->)].
  - destruct (hand_out_result _ _ _ _ _ _ _ Hout) as (Hbad & Hnone & Hgood).
    unfold only_engine in Hst0.
    assert (Htables :
      buffers st0 = buffers st ∧ db_handles st0 = db_handles st
      ∧ iterator_handles st0 = iterator_handles st
      ∧ batch_handles st0 = batch_handles st
      ∧ transaction_handles st0 = transaction_handles st
      ∧ snapshot_handles st0 = snapshot_handles st)
      by (rewrite Hst0; done).
    destruct Htables as (Hb & H1 & H2 & H3 & H4 & H5).
    split; [intros Hne; by destruct (Hbad Hne) as (? & ? & _) |].
    split.
    { intros q Hq. destruct (Hgood q Hq) as (? & ? & v' & ? & ? & _).
      rewrite <- Hb. eauto. }
    destruct b as [q |].
    + destruct (Hgood q eq_refl) as (_ & Hfresh & v' & _ & _ & ->).
      simpl. rewrite <- H1, <- H2, <- H3, <- H4, <- H5, <- Hb.
      split; [| done].
      intros q' v'' Hq'. rewrite lookup_insert_ne; [done |].
      intros <-. rewrite Hfresh in Hq'. discriminate Hq'.
    + rewrite (Hnone eq_refl). rewrite Hb. done.
  - split; [done |]. split; [by intros q [=] |]. done.
Qed.

Lemma rocksdb_get_hand_out st p d opts key key_len s v w :
  open_db st p d →
  rocksdb.Get d (readOpts opts) (mkSlice key key_len) (engine st)
  = (s, v, w) →
  rocksdb_get (Some p) opts key key_len st = hand_out s v (set_engine w st).
Proof.
  intros Hopen Hget. unfold rocksdb_get.
  rewrite (bind_run _ _ _ _ _ (checked_db_open _ _ _ Hopen)).
  unfold call at 1. unfold mbind at 1, M_bind at 1. by rewrite Hget.
Qed.

Lemma transaction_read_hand_out read st p t opts key key_len s v w :
  transaction_handles st !! p = Some (mkTransactionHandle (Some t)) →
  read t (readOpts opts) (mkSlice key key_len) (engine st) = (s, v, w) →
  transaction_read read (Some p) opts key key_len st
  = hand_out s v (set_engine w st).
Proof.
  intros Hp Hread.
  unfold transaction_read, checked_txn, hand_out, malloc, memcpy.
  run_bridge. rewrite Hp; simpl. by rewrite Hread.
Qed.

Lemma hand_out_handed_out s v w st :
  handed_out s v w st (hand_out s v (set_engine w st)).
Proof.
  unfold handed_out. rewrite hand_out_cases. split; [| split].
  - by intros ->.
  - intros -> Hmalloc. simpl. by rewrite Hmalloc.
  - intros -> Hmalloc. simpl. rewrite Hmalloc.
    exists (fresh (dom (buffers st))). split; [apply fresh_not_live | done].
Qed.

(** X14. A read inside a transaction hands out its value like
    [rocksdb_get]: on a live transaction handle, when the engine's [Get]
    (for [rocksdb_transaction_get]) or [GetForUpdate] (for
    [rocksdb_transaction_get_for_update]) answers with a status that is
    not OK, the function returns the mapped status with the null pointer
    and length 0; when it answers OK, the function returns [OK] with the
    length of the value and what [malloc] returned: a block that was not
    live and now holds the value byte for byte, or null. *)
Theorem transaction_reads_hand_out_value st p t opts key key_len s v w :
  transaction_handles st !! p = Some (mkTransactionHandle (Some t)) →
  (rocksdb.Transaction_Get t (readOpts opts) (mkSlice key key_len)
     (engine st) = (s, v, w) →
   handed_out s v w st (rocksdb_transaction_get (Some p) opts key key_len st))
  ∧ (rocksdb.Transaction_GetForUpdate t (readOpts opts)
       (mkSlice key key_len) (engine st) = (s, v, w) →
     handed_out s v w st
       (rocksdb_transaction_get_for_update (Some p) opts key key_len st)).
Proof.
  intros Hp. split; intros Hread;
    unfold rocksdb_transaction_get, rocksdb_transaction_get_for_update;
    rewrite (transaction_read_hand_out _ _ _ _ _ _ _ _ _ _ Hp Hread);
    apply hand_out_handed_out.
Qed.

(** X15. The buffer of a lookup is the caller's to free: after a
    [rocksdb_get] that handed out a block, [rocksdb_free_data] of that
    block releases it and leaves the state that the lookup's engine call
    alone would have left, with the blocks as they were before the
    lookup; freeing the block once more is undefined, and freeing the
    null pointer does nothing. *)
Theorem get_then_free_data st p d opts key key_len s v w :
  open_db st p d →
  rocksdb.Get d (readOpts opts) (mkSlice key key_len) (engine st)
  = (s, v, w) →
  rocksdb.ok s = true →
  malloc_null st (size v) = false →
  ∃ b st1,
    rocksdb_get (Some p) opts key key_len st
    = Some ((make_ok, Some b, size v), st1)
    ∧ buffers st1 !! b = Some v
    ∧ rocksdb_free_data (Some b) st1 = Some (tt, set_engine w st)
    ∧ rocksdb_free_data (Some b) (set_engine w st) = None
    ∧ rocksdb_free_data None st1 = Some (tt, st1).
Proof.
  intros Hopen Hget Hok Hmalloc.
  exists (fresh (dom (buffers st))). eexists. split.
  { rewrite (rocksdb_get_hand_out _ _ _ _ _ _ _ _ _ Hopen Hget).
    rewrite hand_out_cases, Hok. simpl. by rewrite Hmalloc. }
  split; [simpl; apply lookup_insert_eq |].
  unfold rocksdb_free_data. run_bridge.
  rewrite lookup_insert_eq, fresh_not_live; simpl.
  split; [| done]. by rewrite delete_fresh.
Qed.

(** ** Guards *)

(** X16. A live handle whose engine pointer is null is treated like the
    null handle by every operation whose guard tests the two together
    ([!db || !db->db], [iter && iter->iter], [!txn || !txn->txn]): on
    such a handle the operation returns what it returns on the null
    handle (for the status-returning ones, [InvalidArgument]) and leaves
    the state as it was.  [rocksdb_release_snapshot] has the guard around
    the engine's [ReleaseSnapshot] only: on such a database handle it
    makes no engine call and still deletes the snapshot handle it is
    given, as it does with a null database; a snapshot handle that is
    not live makes that undefined.  An iterator or transaction handle is
    in that condition when the engine returned null at its creation. *)
Theorem hollow_handle_like_null c k p st :
  tested_pointer c = Some (k, Some p) → hollow st k p →
  (released_snapshot c = None → run c st = Some (null_result c, st))
  ∧ (∀ q, released_snapshot c = Some q →
          run c st
          = match snapshot_handles st !! q with
            | Some _ =>
                Some (null_result c,
                      set_table snapshot_kind
                        (delete q (snapshot_handles st)) st)
            | None => None
            end).
Proof.
  intros Hc Hhollow. split.
  - intros Hkept.
    destruct c; try discriminate Hc; simpl in Hc; simplify_eq;
      simpl in Hhollow; try destruct Hhollow as (h & Hh & Hd); simpl;
      unfold rocksdb_put, rocksdb_get, rocksdb_delete,
        rocksdb_key_may_exist, rocksdb_write_batch,
        rocksdb_iterator_create, rocksdb_iterator_valid,
        rocksdb_iterator_seek_to_first, rocksdb_iterator_seek_to_last,
        rocksdb_iterator_seek, rocksdb_iterator_seek_for_prev,
        rocksdb_iterator_next, rocksdb_iterator_prev, on_iter,
        rocksdb_iterator_key, rocksdb_iterator_value,
        rocksdb_iterator_status, rocksdb_transaction_put,
        rocksdb_transaction_get, rocksdb_transaction_get_for_update,
        transaction_read, rocksdb_transaction_delete,
        rocksdb_transaction_create_iterator, rocksdb_transaction_commit,
        rocksdb_transaction_rollback, rocksdb_transaction_set_savepoint,
        rocksdb_transaction_rollback_to_savepoint, rocksdb_create_snapshot,
        rocksdb_release_snapshot,
        rocksdb_compact_range, rocksdb_flush, rocksdb_get_property,
        rocksdb_get_approximate_sizes, checked_db, checked_iter,
        checked_txn;
      run_bridge;
      first [rewrite Hh; simpl; rewrite Hd | rewrite Hhollow];
      try (simpl in Hkept; subst sn);
      reflexivity.
  - intros q Hq. destruct c; simpl in Hq; try discriminate Hq. subst sn.
    simpl in Hc. simplify_eq. simpl in Hhollow.
    destruct Hhollow as (h & Hh & Hd). simpl.
    unfold rocksdb_release_snapshot, checked_db. run_bridge.
    rewrite Hh; simpl. rewrite Hd.
    destruct (snapshot_handles st !! q) as [hs |] eqn:Hq;
      simpl; [| reflexivity].
    rewrite Hq. by destruct (snapshot hs).
Qed.

(** X17. A null options pointer stands for default-constructed options:
    every operation that takes read or write options behaves, with the
    null pointer, exactly as with a pointer to default options. *)
Theorem null_options_are_defaults c st :
  run (with_default_options c) st = run c st.
Proof.
  destruct c; try reflexivity;
    match goal with o : option _ |- _ => destruct o end; reflexivity.
Qed.

(** X18. The codes [make_status] returns are backed by the engine: the
    code is [OK] exactly for an OK status, and a code other than the
    [IOError] fallback is returned only for a status that is not OK and
    satisfies the test listed with that code. *)
Theorem make_status_code_backed s :
  (code (make_status s) = RocksDBStatusOK ↔ rocksdb.ok s = true)
  ∧ (∀ test kind,
       In (test, kind) priority_order →
       code (make_status s) = kind → kind ≠ RocksDBStatusIOError →
       rocksdb.ok s = false ∧ test s = true).
Proof.
  split.
  - unfold make_status. pose proof (map_code_not_ok s).
    destruct (rocksdb.ok s); simpl; split; done.
  - intros test kind Hin Hcode Hc.
    unfold make_status in Hcode.
    destruct (rocksdb.ok s) eqn:Hok; simpl in Hcode.
    + subst kind. simpl in Hin.
      repeat (destruct Hin as [[=] | Hin]). destruct Hin.
    + split; [reflexivity |]. unfold map_code in Hcode. simpl in Hin.
      repeat (destruct Hin as [Heq | Hin];
              [injection Heq as <- <-;
               repeat match type of Hcode with
                      | (if ?b then _ else _) = _ =>
                          destruct b eqn:?; try discriminate Hcode;
                          try reflexivity
                      end; try done |]).
      destruct Hin.
Qed.

(** ** Text results *)

Lemma until_nul_no_nul (text : string) : has_nul (until_nul text) = false.
Proof.
  induction text as [| a text IH]; simpl; [reflexivity |].
  destruct (Ascii.eqb a "000") eqn:Ha; simpl; [reflexivity |].
  by rewrite Ha.
Qed.

Lemma until_nul_id (text : string) :
  has_nul text = false → until_nul text = text.
Proof.
  induction text as [| a text IH]; simpl; [reflexivity |].
  destruct (Ascii.eqb a "000"); simpl; [discriminate |].
  intros Hs. by rewrite IH.
Qed.

Lemma until_nul_prefix (text : string) :
  ∃ rest, text = (until_nul text ++ rest)%string
          ∧ (rest = EmptyString
             ∨ ∃ rest', rest = String "000"%char rest').
Proof.
  induction text as [| a text (rest & Hs & Hrest)]; simpl.
  - exists EmptyString. split; [reflexivity | by left].
  - destruct (Ascii.eqb_spec a "000") as [-> | Hne].
    + exists (String "000"%char text). split; [reflexivity | right; eauto].
    + exists rest. split; [| exact Hrest].
      change (String a text = String a (until_nul text ++ rest)%string).
      by rewrite <- Hs.
Qed.

(** X19. Text results are C strings.  The message of a status and the
    value [rocksdb_get_property] returns are the engine's text when it
    holds no NUL byte; otherwise they are the text before its first NUL
    byte: the result never holds a NUL byte and is a prefix of the
    engine's text followed, if anything was cut, by a NUL byte.  (The
    point lookups copy [size] bytes instead and keep NUL bytes.) *)
Theorem text_results_stop_at_nul :
  (∀ s msg,
     message (make_status s) = Some msg →
     has_nul msg = false
     ∧ (has_nul (rocksdb.ToString s) = false → msg = rocksdb.ToString s)
     ∧ ∃ rest, rocksdb.ToString s = (msg ++ rest)%string
               ∧ (rest = EmptyString
                  ∨ ∃ rest', rest = String "000"%char rest'))
  ∧ (∀ st p d property v,
       open_db st p d →
       rocksdb.GetProperty d property (engine st) = (true, v) →
       ∃ text,
         rocksdb_get_property (Some p) property st = Some (Some text, st)
         ∧ has_nul text = false
         ∧ (has_nul v = false → text = v)
         ∧ ∃ rest, v = (text ++ rest)%string
                   ∧ (rest = EmptyString
                      ∨ ∃ rest', rest = String "000"%char rest')).
Proof.
  split.
  - intros s msg. unfold make_status.
    destruct (rocksdb.ok s); simpl; [discriminate |].
    unfold strdup. intros [= <-].
    split; [apply until_nul_no_nul |].
    split; [apply until_nul_id | apply until_nul_prefix].
  - intros st p d property v Hopen Hget. exists (until_nul v). split.
    { unfold rocksdb_get_property.
      rewrite (bind_run _ _ _ _ _ (checked_db_open _ _ _ Hopen)).
      unfold query, mbind, M_bind, mret, M_ret. by rewrite Hget. }
    split; [apply until_nul_no_nul |].
    split; [apply until_nul_id | apply until_nul_prefix].
Qed.

(** ** Array bounds of the size estimates *)

Lemma range_at_is_Some sk sl ek el i :
  is_Some (range_at sk sl ek el i) ↔
  (i < length sk ∧ i < length sl ∧ i < length ek ∧ i < length el)%nat.
Proof.
  unfold range_at. rewrite <- !lookup_lt_is_Some.
  destruct (sk !! i), (sl !! i), (ek !! i), (el !! i);
    split; try (intros [? [=]]); try (intros (? & ? & ? & ?));
    repeat split; eauto;
    match goal with H : is_Some None |- _ => by destruct H end.
Qed.

Lemma collect_ranges_is_Some sk sl ek el todo :
  ∀ i acc,
    is_Some (collect_ranges todo i acc sk sl ek el) →
    ∀ j, (i ≤ j < i + todo)%nat → is_Some (range_at sk sl ek el j).
Proof.
  induction todo as [| todo IH]; intros i acc Hsome j Hj; [lia |].
  simpl in Hsome. unfold range_at at 1.
  destruct (decide (j = i)) as [-> | Hne].
  - destruct (sk !! i), (sl !! i), (ek !! i), (el !! i);
      first [by eauto | by destruct Hsome].
  - destruct (sk !! i), (sl !! i), (ek !! i), (el !! i);
      try (by destruct Hsome).
    apply (IH _ _ Hsome). lia.
Qed.

Lemma store_sizes_is_Some d w ranges :
  ∀ i (sizes : list N),
    ranges ≠ [] →
    is_Some (store_sizes d w ranges i sizes) →
    (i + length ranges ≤ length sizes)%nat.
Proof.
  induction ranges as [| r rest IH]; intros i sizes Hne Hsome; [done |].
  simpl in Hsome |- *.
  destruct (decide (i < length sizes)%nat) as [Hi | Hi];
    [| by destruct Hsome].
  destruct rest as [| r' rest]; [simpl; lia |].
  specialize (IH (S i) _ ltac:(done) Hsome).
  rewrite length_insert in IH. simpl in IH |- *. lia.
Qed.

(** X20. [rocksdb_get_approximate_sizes] trusts [num_ranges]: on an open
    database and a positive [num_ranges] the call is defined exactly when
    each of the four input arrays and [sizes_out] holds at least
    [num_ranges] entries; with a shorter array it reads or writes past
    the end. *)
Theorem approximate_sizes_defined_iff
    st p d num_ranges start_keys start_key_lens end_keys end_key_lens
    (sizes_out : list N) :
  open_db st p d →
  (0 < num_ranges)%Z →
  is_Some (rocksdb_get_approximate_sizes (Some p) num_ranges
             start_keys start_key_lens end_keys end_key_lens sizes_out st)
  ↔ (Z.to_nat num_ranges ≤ length start_keys
     ∧ Z.to_nat num_ranges ≤ length start_key_lens
     ∧ Z.to_nat num_ranges ≤ length end_keys
     ∧ Z.to_nat num_ranges ≤ length end_key_lens
     ∧ Z.to_nat num_ranges ≤ length sizes_out)%nat.
Proof.
  intros Hopen Hn.
  assert (Hpos : (0 < Z.to_nat num_ranges)%nat) by lia.
  unfold rocksdb_get_approximate_sizes.
  rewrite (bind_run _ _ _ _ _ (checked_db_open _ _ _ Hopen)).
  rewrite (proj2 (Z.leb_gt _ _) Hn).
  destruct (collect_ranges (Z.to_nat num_ranges) 0 []
              start_keys start_key_lens end_keys end_key_lens)
    as [rs |] eqn:Hcollect.
  - assert (Hin : ∀ j, (j < Z.to_nat num_ranges)%nat →
              is_Some (range_at start_keys start_key_lens
                         end_keys end_key_lens j)).
    { intros j Hj.
      apply (collect_ranges_is_Some _ _ _ _ (Z.to_nat num_ranges) 0 []);
        [rewrite Hcollect; eauto | lia]. }
    destruct (collect_ranges_spec start_keys start_key_lens
                end_keys end_key_lens (Z.to_nat num_ranges) 0 [])
      as (rs' & Hrs & Hlen & _).
    { intros j Hj. apply Hin. lia. }
    rewrite Hcollect in Hrs. simpl in Hrs. injection Hrs as <-.
    assert (Htake : take (Z.to_nat num_ranges) rs = rs)
      by (rewrite <- Hlen; apply firstn_all).
    pose proof (proj1 (range_at_is_Some _ _ _ _ _)
                  (Hin (Z.to_nat num_ranges - 1)%nat ltac:(lia)))
      as (H1 & H2 & H3 & H4).
    unfold query, id, mbind, M_bind, mret, M_ret, undefined.
    rewrite Htake. split.
    + intros Hsome.
      assert (Hstore : is_Some (store_sizes d (engine st) rs 0 sizes_out))
        by (destruct (store_sizes d (engine st) rs 0 sizes_out);
            [eauto | by destruct Hsome]).
      apply store_sizes_is_Some in Hstore;
        [| intros ->; simpl in Hlen; lia].
      simpl in Hstore. lia.
    + intros (_ & _ & _ & _ & H5).
      destruct (store_sizes_spec d (engine st) rs 0 sizes_out)
        as (out & -> & _); [simpl; lia | eauto].
  - split; [by intros [? [=]] |].
    intros (H1 & H2 & H3 & H4 & _).
    destruct (collect_ranges_spec start_keys start_key_lens
                end_keys end_key_lens (Z.to_nat num_ranges) 0 [])
      as (rs' & Hrs & _).
    { intros j Hj. apply range_at_is_Some. lia. }
    rewrite Hcollect in Hrs. discriminate Hrs.
Qed.

End Properties.

(** * The properties on the reference engine *)

Section Examples.

Import MemEngine.

Local Open Scope string_scope.

Lemma make_status_total_priority_witness :
  code (make_status not_found) = RocksDBStatusNotFound
  ∧ code (make_status not_found) ≠ RocksDBStatusIOError
  ∧ make_status dropped
    = mkStatus RocksDBStatusIOError (Some "Column family dropped: cf").
Proof.
  split; [| split].
  - apply (make_status_total_priority (E := mem_engine) not_found);
      reflexivity.
  - apply (make_status_total_priority (E := mem_engine) not_found);
      reflexivity.
  - apply (make_status_total_priority (E := mem_engine) dropped);
      [reflexivity | repeat constructor].
Defined.

Lemma status_message_iff_not_ok_witness :
  run (c_get (Some 1%positive) None (Some "zz") 2) populated
  = Some (ReturnedValue
            (mkStatus RocksDBStatusNotFound (Some "NotFound: ")) None 0,
          populated)
  ∧ message_iff_not_ok
      (mkStatus RocksDBStatusNotFound (Some "NotFound: ")).
Proof.
  assert (Hrun :
    run (c_get (Some 1%positive) None (Some "zz") 2) populated
    = Some (ReturnedValue
              (mkStatus RocksDBStatusNotFound (Some "NotFound: ")) None 0,
            populated)) by reflexivity.
  split; [exact Hrun |].
  exact (proj2 (proj2 (status_message_iff_not_ok (E := mem_engine)))
           _ _ _ _ _ Hrun eq_refl).
Defined.

(** C2 fails as stated: [rocksdb_batch_put] on the null batch is defined
    and does nothing; it reports no status at all. *)
Lemma batch_put_null_reports_nothing :
  null_handle (c_batch_put None (Some "k") 1 (Some "v") 1) = true
  ∧ run (c_batch_put None (Some "k") 1 (Some "v") 1) initial
    = Some (Void, initial)
  ∧ ¬ (∃ o st',
         run (c_batch_put None (Some "k") 1 (Some "v") 1) initial
         = Some (o, st')
         ∧ rejected o).
Proof.
  split; [reflexivity | split; [reflexivity |]].
  intros (o & st' & Hrun & r & text & Hstatus & _).
  injection Hrun as <- _. discriminate Hstatus.
Qed.

Lemma null_handle_outcome_witness :
  null_handle (c_put None None (Some "k") 1 (Some "v") 1) = true
  ∧ handles_usable initial (c_put None None (Some "k") 1 (Some "v") 1)
  ∧ run (c_put None None (Some "k") 1 (Some "v") 1) initial
    = Some (Returned (invalid_argument "Database is null"), initial)
  ∧ null_handle (c_release_snapshot None (Some 1%positive)) = true
  ∧ handles_usable with_snapshot (c_release_snapshot None (Some 1%positive))
  ∧ run (c_release_snapshot None (Some 1%positive)) with_snapshot
    = Some (Void,
            set_table snapshot_kind
              (delete 1%positive (snapshot_handles with_snapshot))
              with_snapshot).
Proof.
  assert (Hlive :
    handles_usable with_snapshot (c_release_snapshot None (Some 1%positive)))
    by (eexists; reflexivity).
  split; [reflexivity | split; [exact I |]].
  split; [| split; [reflexivity | split; [exact Hlive |]]].
  - apply (null_handle_outcome (E := mem_engine)
             (c_put None None (Some "k") 1 (Some "v") 1) initial);
      [reflexivity | exact I | reflexivity].
  - apply (null_handle_outcome (E := mem_engine)
             (c_release_snapshot None (Some 1%positive)) with_snapshot);
      [reflexivity | exact Hlive | reflexivity].
Defined.

Lemma rocksdb_get_outcome_witness :
  open_db populated 1%positive "db"
  ∧ get "db" (mkSlice (Some "zz") 2) (engine populated)
    = (not_found, EmptyString, engine populated)
  ∧ get "db" (mkSlice (Some "k") 1) (engine populated)
    = (OK, "abc", engine populated)
  ∧ get "db" (mkSlice (Some "e") 1) (engine populated)
    = (OK, EmptyString, engine populated)
  ∧ malloc_null populated 3 = false
  ∧ malloc_null populated 0 = false
  ∧ rocksdb_get (Some 1%positive) None (Some "zz") 2 populated
    = Some ((mkStatus RocksDBStatusNotFound (Some "NotFound: "),
             None, 0%N),
            set_engine (engine populated) populated)
  ∧ (∃ b, buffers populated !! b = None
          ∧ rocksdb_get (Some 1%positive) None (Some "k") 1 populated
            = Some ((make_ok, Some b, 3%N),
                    set_table buffer_kind
                      (<[b := "abc"]> (buffers populated))
                      (set_engine (engine populated) populated)))
  ∧ (∃ b, buffers populated !! b = None
          ∧ rocksdb_get (Some 1%positive) None (Some "e") 1 populated
            = Some ((make_ok, Some b, 0%N),
                    set_table buffer_kind
                      (<[b := EmptyString]> (buffers populated))
                      (set_engine (engine populated) populated))).
Proof.
  assert (Hopen : open_db populated 1%positive "db")
    by (eexists; split; reflexivity).
  split; [exact Hopen |].
  do 5 (split; [reflexivity |]).
  split; [| split].
  - apply (rocksdb_get_outcome (E := mem_engine) populated 1%positive "db"
             None (Some "zz") 2 not_found EmptyString (engine populated)
             Hopen eq_refl); reflexivity.
  - apply (rocksdb_get_outcome (E := mem_engine) populated 1%positive "db"
             None (Some "k") 1 OK "abc" (engine populated)
             Hopen eq_refl); reflexivity.
  - apply (rocksdb_get_outcome (E := mem_engine) populated 1%positive "db"
             None (Some "e") 1 OK EmptyString (engine populated)
             Hopen eq_refl); reflexivity.
Defined.

Lemma open_failure_releases_handle_witness :
  engine_open_undone ReadWrite (mkOptions false false) "db" (engine initial)
  = (missing, empty_world)
  ∧ has_code kOk missing = false
  ∧ open_in ReadWrite "db" no_create initial
    = Some ((mkStatus RocksDBStatusInvalidArgument (Some (ToString missing)),
             None),
            initial)
  ∧ db_handles initial = ∅.
Proof.
  split; [reflexivity |]. split; [reflexivity |].
  split; [| reflexivity].
  apply (open_failure_releases_handle (E := mem_engine) ReadWrite "db"
           (mkOptions false false) initial missing empty_world);
    reflexivity.
Defined.

Lemma iterator_accessors_empty_when_invalid_witness :
  rocksdb_iterator_valid (Some 1%positive) with_iterator
  = Some (0%Z, with_iterator)
  ∧ rocksdb_iterator_key (Some 1%positive) with_iterator
    = Some ((None, 0%N), with_iterator)
  ∧ rocksdb_iterator_value (Some 1%positive) with_iterator
    = Some ((None, 0%N), with_iterator).
Proof.
  split; [reflexivity |].
  pose proof (iterator_accessors_empty_when_invalid (E := mem_engine)
                (Some 1%positive) with_iterator eq_refl)
    as (Hkey & Hvalue & _).
  exact (conj Hkey Hvalue).
Defined.

Lemma transaction_begin_iff_transactional_witness :
  open_in Transactional "tdb" create initial
  = Some ((make_ok, Some 1%positive), transactional)
  ∧ rocksdb_transaction_begin (Some 1%positive) None transactional
    = Some (Some 1%positive, with_transaction)
  ∧ transaction_handles transactional = ∅
  ∧ transaction_handles with_transaction
    = {[1%positive := mkTransactionHandle (Some 0%nat)]}
  ∧ transactions (engine transactional) = []
  ∧ transactions (engine with_transaction) = [("tdb", [], [])]
  ∧ (∃ o' s tdb w0 q,
       create = Some o'
       ∧ open o' "tdb" (engine initial) = (s, Some tdb, w0)
       ∧ transaction_handles transactional !! q = None
       ∧ rocksdb_transaction_begin (Some 1%positive) None transactional
         = (let '(t, w) := begin_transaction tdb (engine transactional) in
            Some (Some q,
                  set_table transaction_kind
                    (<[q := mkTransactionHandle t]>
                       (transaction_handles transactional))
                    (set_engine w transactional))))
  ∧ open_in ReadWrite "db" create initial
    = Some ((make_ok, Some 1%positive),
            after [c_open "db" create] initial)
  ∧ rocksdb_transaction_begin (Some 1%positive) None
      (after [c_open "db" create] initial)
    = Some (None, after [c_open "db" create] initial).
Proof.
  do 6 (split; [reflexivity |]).
  split; [| split; [reflexivity |]].
  - apply (proj2 (transaction_begin_iff_transactional (E := mem_engine))
             Transactional "tdb" create initial make_ok 1%positive
             transactional transactional None eq_refl eq_refl).
    reflexivity.
  - apply (proj2 (transaction_begin_iff_transactional (E := mem_engine))
             ReadWrite "db" create initial make_ok 1%positive
             (after [c_open "db" create] initial)
             (after [c_open "db" create] initial) None eq_refl eq_refl).
    discriminate.
Defined.

(** The reference engine keeps the contract of [CompactRange]. *)
Lemma assoc_insert_key {A : Type} (k : string) (v : A) t :
  assoc k (insert_key k v t) = Some v.
Proof.
  induction t as [| [k' v'] t IH]; simpl.
  - by rewrite String.eqb_refl.
  - destruct (String.eqb k k') eqn:Hk; simpl.
    + by rewrite String.eqb_refl.
    + destruct (String.ltb k k'); simpl.
      * by rewrite String.eqb_refl.
      * by rewrite Hk.
Qed.

Lemma assoc_Some_key (k : string) (t : Table) :
  is_Some (assoc k t) → k ∈ map fst t.
Proof.
  induction t as [| [k' v'] t IH]; simpl.
  - by intros [? [=]].
  - destruct (String.eqb k k') eqn:Hk.
    + apply String.eqb_eq in Hk as ->. intros _. left.
    + intros Hin. right. by apply IH.
Qed.

Lemma compact_range_contract d b e w s w' k :
  compact_range d b e w = (s, w') → has_code kOk s = true →
  stored d k w = true →
  compacted d k w' = compacted d k w || compaction_covers b e k.
Proof.
  unfold compact_range, stored, compacted. intros Hrun Hok Hstored.
  destruct (assoc d (disk w)) as [t |] eqn:Ht; simplify_eq.
  simpl in *. rewrite assoc_insert_key. simpl.
  apply bool_decide_eq_true, assoc_Some_key in Hstored.
  destruct (compaction_covers b e k) eqn:Hcovers.
  - rewrite orb_true_r. apply bool_decide_eq_true, elem_of_app. right.
    unfold covered_keys. by apply list_elem_of_filter.
  - rewrite orb_false_r. apply bool_decide_ext. rewrite elem_of_app.
    split; [| by left]. intros [Hin | Hin]; [exact Hin |].
    apply list_elem_of_filter in Hin as [Hin _]. congruence.
Qed.

Lemma compact_range_bounds_witness :
  open_db populated 1%positive "db"
  ∧ stored "db" "e" (engine populated) = true
  ∧ stored "db" "k" (engine populated) = true
  ∧ bound (Some "a") 1 = Some (mkSlice (Some "a") 1)
  ∧ bound (Some "a") 0 = None
  ∧ run compact_e_k populated
    = Some (Returned make_ok, after [compact_e_k] populated)
  ∧ compacted "db" "e" (engine (after [compact_e_k] populated)) = true
  ∧ compacted "db" "k" (engine (after [compact_e_k] populated)) = false
  ∧ (∃ r w,
       rocksdb_compact_range (Some 1%positive) (Some "e") 1 (Some "k") 1
         populated
       = Some (r, set_engine w populated)
       ∧ (code r = RocksDBStatusOK →
          ∀ k, stored "db" k (engine populated) = true →
            (compacted "db" k w = true ↔
             compacted "db" k (engine populated) = true
             ∨ ((Some "e" = None ∨ 1%N = 0%N
                 ∨ String.leb (slice_bytes (mkSlice (Some "e") 1)) k = true)
                ∧ (Some "k" = None ∨ 1%N = 0%N
                   ∨ String.ltb k (slice_bytes (mkSlice (Some "k") 1))
                     = true))))).
Proof.
  assert (Hopen : open_db populated 1%positive "db")
    by (eexists; split; reflexivity).
  split; [exact Hopen |].
  do 2 (split; [reflexivity |]).
  destruct (compact_range_bounds (E := mem_engine) stored compacted
              compact_range_contract)
    as (Homitted & Hgiven & Hcall & Hrange).
  split; [apply Hgiven; discriminate |].
  split; [apply Homitted; right; reflexivity |].
  do 3 (split; [reflexivity |]).
  exact (Hrange populated 1%positive "db" (Some "e") 1%N (Some "k") 1%N
           Hopen).
Defined.

Lemma get_property_absent_or_string_witness :
  open_db populated 1%positive "db"
  ∧ get_property "db" "rocksdb.stats" (engine populated)
    = (true, EmptyString)
  ∧ get_property "db" "rocksdb.unknown" (engine populated)
    = (false, EmptyString)
  ∧ rocksdb_get_property (Some 1%positive) "rocksdb.stats" populated
    = Some (Some EmptyString, populated)
  ∧ rocksdb_get_property (Some 1%positive) "rocksdb.unknown" populated
    = Some (None, populated).
Proof.
  assert (Hopen : open_db populated 1%positive "db")
    by (eexists; split; reflexivity).
  split; [exact Hopen |]. split; [reflexivity |]. split; [reflexivity |].
  split.
  - apply (get_property_absent_or_string (E := mem_engine)
             populated 1%positive "db" "rocksdb.stats" Hopen).
    reflexivity.
  - apply (proj1 (get_property_absent_or_string (E := mem_engine)
                    populated 1%positive "db" "rocksdb.unknown" Hopen)
             EmptyString).
    reflexivity.
Defined.

Lemma approximate_sizes_frame_witness :
  open_db populated 1%positive "db"
  ∧ ∃ sizes,
      rocksdb_get_approximate_sizes (Some 1%positive) 2
        [Some "a"; Some "k"] [1; 1]%N [Some "z"; Some "l"] [1; 1]%N
        [7; 8; 9]%N populated
      = Some (sizes, populated)
      ∧ length sizes = 3%nat
      ∧ (∀ j, (2 ≤ j)%nat → sizes !! j = [7; 8; 9]%N !! j)
      ∧ (∀ j, (j < 2)%nat →
           ∃ r, range_at [Some "a"; Some "k"] [1; 1]%N
                  [Some "z"; Some "l"] [1; 1]%N j = Some r
                ∧ sizes !! j
                  = Some (approximate_size "db" r (engine populated))).
Proof.
  assert (Hopen : open_db populated 1%positive "db")
    by (eexists; split; reflexivity).
  split; [exact Hopen |].
  apply (proj2 (proj2 (approximate_sizes_frame (E := mem_engine) 2
           [Some "a"; Some "k"] [1; 1]%N [Some "z"; Some "l"] [1; 1]%N
           [7; 8; 9]%N populated)) 1%positive "db" Hopen);
    simpl; lia.
Defined.

(** ** The further properties on the reference engine *)

Lemma read_only_calls_change_nothing_witness :
  read_only (c_get_property (Some 1%positive) "rocksdb.stats") = true
  ∧ run (c_get_property (Some 1%positive) "rocksdb.stats") populated
    = Some (Chars (Some EmptyString), populated)
  ∧ populated = populated.
Proof.
  split; [reflexivity |]. split; [reflexivity |].
  exact (read_only_calls_change_nothing (E := mem_engine)
           (c_get_property (Some 1%positive) "rocksdb.stats")
           populated (Chars (Some EmptyString)) populated
           eq_refl eq_refl).
Defined.

Lemma engine_only_calls_keep_heap_witness :
  engine_only put_z = true
  ∧ run put_z populated = Some (Returned make_ok, after [put_z] populated)
  ∧ only_engine populated (after [put_z] populated).
Proof.
  split; [reflexivity |]. split; [reflexivity |].
  exact (engine_only_calls_keep_heap (E := mem_engine) put_z populated
           (Returned make_ok) (after [put_z] populated) eq_refl eq_refl).
Defined.

Lemma batch_edits_touch_only_their_batch_witness :
  edits_batch (c_batch_delete (Some 1%positive) (Some "k") 1)
  = Some (Some 1%positive)
  ∧ run (c_batch_delete (Some 1%positive) (Some "k") 1) with_batch
    = Some (Void,
            after [c_batch_delete (Some 1%positive) (Some "k") 1] with_batch)
  ∧ engine (after [c_batch_delete (Some 1%positive) (Some "k") 1] with_batch)
    = engine with_batch.
Proof.
  split; [reflexivity |]. split; [reflexivity |].
  apply (batch_edits_touch_only_their_batch (E := mem_engine)
           (c_batch_delete (Some 1%positive) (Some "k") 1)
           (Some 1%positive) with_batch Void
           (after [c_batch_delete (Some 1%positive) (Some "k") 1] with_batch)
           eq_refl eq_refl).
Defined.

Lemma batch_edits_accumulate_witness :
  batch_handles with_batch !! 1%positive = Some (mkBatchHandle [])
  ∧ open_db with_batch 1%positive "db"
  ∧ rocksdb_batch_count (Some 1%positive)
      (set_table batch_kind
         (<[1%positive := mkBatchHandle [WPut "a" "1"; WDelete "k"]]>
            (batch_handles with_batch)) with_batch)
    = Some (2%N,
            set_table batch_kind
              (<[1%positive := mkBatchHandle [WPut "a" "1"; WDelete "k"]]>
                 (batch_handles with_batch)) with_batch).
Proof.
  split; [reflexivity |].
  split; [eexists; split; reflexivity |].
  apply (batch_edits_accumulate (E := mem_engine)
           [EditPut (Some "a") 1 (Some "1") 1; EditDelete (Some "k") 1]
           with_batch 1%positive [] eq_refl).
Defined.

Lemma open_returns_handle_iff_ok_witness :
  open_in ReadWrite "db" create initial
  = Some ((make_ok, Some 1%positive), after [c_open "db" create] initial)
  ∧ (is_Some (Some 1%positive) ↔ code make_ok = RocksDBStatusOK).
Proof.
  split; [reflexivity |].
  apply (open_returns_handle_iff_ok (E := mem_engine) ReadWrite "db" create
           initial make_ok (Some 1%positive)
           (after [c_open "db" create] initial) eq_refl).
Defined.

Lemma is_transactional_reports_mode_witness :
  open_in Transactional "tdb" create initial
  = Some ((make_ok, Some 1%positive), transactional)
  ∧ rocksdb_is_transactional (Some 1%positive) transactional
    = Some (1%Z, transactional).
Proof.
  split; [reflexivity |].
  apply (is_transactional_reports_mode (E := mem_engine) Transactional
           "tdb" create initial make_ok 1%positive transactional eq_refl).
Defined.

Lemma open_close_round_trip_witness :
  engine_open Transactional (mkOptions true false) "tdb" (engine initial)
  = (OK, Some (mkHandle (Some "tdb") (Some "tdb") true),
     engine transactional)
  ∧ has_code kOk OK = true
  ∧ ∃ p st1 st2,
      open_in Transactional "tdb" create initial
      = Some ((make_ok, Some p), st1)
      ∧ rocksdb_close (Some p) st1 = Some (tt, st2)
      ∧ st2 = set_engine
                (disposed (mkHandle (Some "tdb") (Some "tdb") true)
                   (engine transactional)) initial
      ∧ rocksdb_close (Some p) st2 = None
      ∧ rocksdb_close None st2 = Some (tt, st2).
Proof.
  split; [reflexivity |]. split; [reflexivity |].
  exact (open_close_round_trip (E := mem_engine) Transactional "tdb"
           (mkOptions true false) initial OK
           (mkHandle (Some "tdb") (Some "tdb") true)
           (engine transactional) eq_refl eq_refl).
Defined.

Lemma db_handle_stable_witness :
  run put_z populated = Some (Returned make_ok, after [put_z] populated)
  ∧ db_handles populated !! 1%positive
    = Some (mkHandle (Some "db") None false)
  ∧ put_z ≠ c_close (Some 1%positive)
  ∧ db_handles (after [put_z] populated) !! 1%positive
    = Some (mkHandle (Some "db") None false).
Proof.
  assert (Hne : put_z ≠ c_close (Some 1%positive)) by discriminate.
  split; [reflexivity |]. split; [reflexivity |]. split; [exact Hne |].
  exact (db_handle_stable (E := mem_engine) put_z populated
           (Returned make_ok) (after [put_z] populated) 1%positive
           (mkHandle (Some "db") None false) eq_refl eq_refl Hne).
Defined.

Lemma iterator_create_destroy_witness :
  open_db populated 1%positive "db"
  ∧ new_iterator "db" (engine populated)
    = (Some 0%nat, engine with_iterator)
  ∧ iterating 0 (engine with_iterator) = true
  ∧ iterating 0 (delete_iterator 0 (engine with_iterator)) = false
  ∧ ∃ q st1,
      iterator_handles populated !! q = None
      ∧ st1 = set_table iterator_kind
                (<[q := mkIteratorHandle (Some 0%nat)]>
                   (iterator_handles populated))
                (set_engine (engine with_iterator) populated)
      ∧ rocksdb_iterator_create (Some 1%positive) None populated
        = Some (Some q, st1)
      ∧ (Some 0%nat = None →
         rocksdb_iterator_valid (Some q) st1 = Some (0%Z, st1))
      ∧ rocksdb_iterator_destroy (Some q) st1
        = Some (tt,
                set_engine (delete_iterator 0 (engine with_iterator))
                  populated)
      ∧ rocksdb_iterator_destroy (Some q)
          (set_engine (delete_iterator 0 (engine with_iterator)) populated)
        = None.
Proof.
  assert (Hopen : open_db populated 1%positive "db")
    by (eexists; split; reflexivity).
  split; [exact Hopen |]. do 3 (split; [reflexivity |]).
  exact (proj1 (iterator_create_destroy (E := mem_engine) populated None)
           1%positive "db" (Some 0%nat) (engine with_iterator)
           Hopen eq_refl).
Defined.


Lemma snapshot_create_release_witness :
  open_db populated 1%positive "db"
  ∧ get_snapshot "db" (engine populated)
    = (Some 0%nat, engine with_snapshot)
  ∧ held 0 (engine with_snapshot) = true
  ∧ held 0 (release_snapshot 0 (engine with_snapshot)) = false
  ∧ ∃ q st1,
      snapshot_handles populated !! q = None
      ∧ rocksdb_create_snapshot (Some 1%positive) populated
        = Some (Some q, st1)
      ∧ snapshot_handles st1 !! q = Some (mkSnapshotHandle (Some 0%nat))
      ∧ rocksdb_release_snapshot (Some 1%positive) (Some q) st1
        = Some (tt,
                set_engine (release_snapshot 0 (engine with_snapshot))
                  populated)
      ∧ rocksdb_release_snapshot None (Some q) st1
        = Some (tt, set_engine (engine with_snapshot) populated)
      ∧ rocksdb_release_snapshot (Some 1%positive) None st1
        = Some (tt, st1).
Proof.
  assert (Hopen : open_db populated 1%positive "db")
    by (eexists; split; reflexivity).
  split; [exact Hopen |]. do 3 (split; [reflexivity |]).
  exact (snapshot_create_release (E := mem_engine) populated 1%positive
           "db" (Some 0%nat) (engine with_snapshot) Hopen eq_refl).
Defined.

Lemma lookup_buffer_discipline_witness :
  looks_up (c_get (Some 1%positive) None (Some "k") 1) = true
  ∧ run (c_get (Some 1%positive) None (Some "k") 1) populated
    = Some (ReturnedValue make_ok (Some 1%positive) 3,
            after [c_get (Some 1%positive) None (Some "k") 1] populated)
  ∧ (∀ q, Some 1%positive = Some q →
       code make_ok = RocksDBStatusOK ∧ buffers populated !! q = None
       ∧ ∃ v, buffers
                (after [c_get (Some 1%positive) None (Some "k") 1] populated)
              !! q = Some v
              ∧ size v = 3%N).
Proof.
  split; [reflexivity |]. split; [reflexivity |].
  apply (lookup_buffer_discipline (E := mem_engine)
           (c_get (Some 1%positive) None (Some "k") 1) populated
           make_ok (Some 1%positive) 3
           (after [c_get (Some 1%positive) None (Some "k") 1] populated)
           eq_refl eq_refl).
Defined.

Lemma transaction_reads_hand_out_value_witness :
  transaction_handles with_transaction !! 1%positive
  = Some (mkTransactionHandle (Some 0%nat))
  ∧ transaction_get 0 (mkSlice (Some "k") 1) (engine with_transaction)
    = (not_found, EmptyString, engine with_transaction)
  ∧ has_code kOk not_found = false
  ∧ rocksdb_transaction_get (Some 1%positive) None (Some "k") 1
      with_transaction
    = Some ((make_status not_found, None, 0%N),
            set_engine (engine with_transaction) with_transaction).
Proof.
  split; [reflexivity |]. split; [reflexivity |]. split; [reflexivity |].
  apply (proj1 (transaction_reads_hand_out_value (E := mem_engine)
                  with_transaction 1%positive 0%nat None (Some "k") 1
                  not_found EmptyString (engine with_transaction) eq_refl)
           eq_refl).
  reflexivity.
Defined.

Lemma get_then_free_data_witness :
  open_db populated 1%positive "db"
  ∧ get "db" (mkSlice (Some "k") 1) (engine populated)
    = (OK, "abc", engine populated)
  ∧ has_code kOk OK = true
  ∧ malloc_null populated 3 = false
  ∧ ∃ b st1,
      rocksdb_get (Some 1%positive) None (Some "k") 1 populated
      = Some ((make_ok, Some b, 3%N), st1)
      ∧ buffers st1 !! b = Some "abc"
      ∧ rocksdb_free_data (Some b) st1
        = Some (tt, set_engine (engine populated) populated)
      ∧ rocksdb_free_data (Some b)
          (set_engine (engine populated) populated) = None
      ∧ rocksdb_free_data None st1 = Some (tt, st1).
Proof.
  assert (Hopen : open_db populated 1%positive "db")
    by (eexists; split; reflexivity).
  split; [exact Hopen |].
  split; [reflexivity |]. split; [reflexivity |]. split; [reflexivity |].
  exact (get_then_free_data (E := mem_engine) populated 1%positive "db"
           None (Some "k") 1 OK "abc" (engine populated)
           Hopen eq_refl eq_refl eq_refl).
Defined.

Lemma hollow_handle_like_null_witness :
  tested_pointer (c_iterator_status (Some 1%positive))
  = Some (IteratorHandle, Some 1%positive)
  ∧ hollow with_hollow_iterator IteratorHandle 1%positive
  ∧ run (c_iterator_status (Some 1%positive)) with_hollow_iterator
    = Some (Returned (invalid_argument "Iterator is null"),
            with_hollow_iterator)
  ∧ tested_pointer (c_release_snapshot (Some 1%positive) (Some 1%positive))
    = Some (DatabaseHandle, Some 1%positive)
  ∧ hollow with_hollow_database DatabaseHandle 1%positive
  ∧ run (c_release_snapshot (Some 1%positive) (Some 1%positive))
      with_hollow_database
    = Some (Void,
            set_table snapshot_kind
              (delete 1%positive (snapshot_handles with_hollow_database))
              with_hollow_database)
  ∧ engine
      (set_table snapshot_kind
         (delete 1%positive (snapshot_handles with_hollow_database))
         with_hollow_database)
    = empty_world.
Proof.
  assert (Hhollow : hollow with_hollow_database DatabaseHandle 1%positive)
    by (eexists; split; reflexivity).
  split; [reflexivity |]. split; [reflexivity |].
  split; [| split; [reflexivity | split; [exact Hhollow |]]].
  - apply (hollow_handle_like_null (E := mem_engine)
             (c_iterator_status (Some 1%positive)) IteratorHandle
             1%positive with_hollow_iterator eq_refl eq_refl).
    reflexivity.
  - split; [| reflexivity].
    exact (proj2 (hollow_handle_like_null (E := mem_engine)
                    (c_release_snapshot (Some 1%positive) (Some 1%positive))
                    DatabaseHandle 1%positive with_hollow_database
                    eq_refl Hhollow)
             1%positive eq_refl).
Defined.

Lemma make_status_code_backed_witness :
  In (has_code kNotFound, RocksDBStatusNotFound)
    (priority_order (E := mem_engine))
  ∧ code (make_status not_found) = RocksDBStatusNotFound
  ∧ RocksDBStatusNotFound ≠ RocksDBStatusIOError
  ∧ has_code kOk not_found = false
  ∧ has_code kNotFound not_found = true.
Proof.
  assert (Hin : In (has_code kNotFound, RocksDBStatusNotFound)
                  (priority_order (E := mem_engine)))
    by (left; reflexivity).
  assert (Hne : RocksDBStatusNotFound ≠ RocksDBStatusIOError)
    by discriminate.
  split; [exact Hin |]. split; [reflexivity |]. split; [exact Hne |].
  exact (proj2 (make_status_code_backed (E := mem_engine) not_found)
           (has_code kNotFound) RocksDBStatusNotFound Hin eq_refl Hne).
Defined.

Lemma text_results_stop_at_nul_witness :
  message (make_status cut) = Some "IO error: a"
  ∧ has_nul "IO error: a" = false
  ∧ open_db populated 1%positive "db"
  ∧ get_property "db" "rocksdb.stats" (engine populated)
    = (true, EmptyString)
  ∧ ∃ text,
      rocksdb_get_property (Some 1%positive) "rocksdb.stats" populated
      = Some (Some text, populated)
      ∧ has_nul text = false
      ∧ (has_nul EmptyString = false → text = EmptyString)
      ∧ ∃ rest, EmptyString = (text ++ rest)%string
                ∧ (rest = EmptyString
                   ∨ ∃ rest', rest = String "000"%char rest').
Proof.
  assert (Hopen : open_db populated 1%positive "db")
    by (eexists; split; reflexivity).
  split; [reflexivity |].
  split; [exact (proj1 (proj1 (text_results_stop_at_nul (E := mem_engine))
                          cut "IO error: a" eq_refl)) |].
  split; [exact Hopen |]. split; [reflexivity |].
  exact (proj2 (text_results_stop_at_nul (E := mem_engine))
           populated 1%positive "db" "rocksdb.stats" EmptyString
           Hopen eq_refl).
Defined.

Lemma approximate_sizes_defined_iff_witness :
  open_db populated 1%positive "db"
  ∧ (0 < 2)%Z
  ∧ rocksdb_get_approximate_sizes (Some 1%positive) 2
      [Some "a"; Some "k"] [1; 1]%N [Some "z"; Some "l"] [1; 1]%N
      [7]%N populated
    = None.
Proof.
  assert (Hopen : open_db populated 1%positive "db")
    by (eexists; split; reflexivity).
  split; [exact Hopen |]. split; [lia |].
  destruct (rocksdb_get_approximate_sizes (Some 1%positive) 2
              [Some "a"; Some "k"] [1; 1]%N [Some "z"; Some "l"] [1; 1]%N
              [7]%N populated) as [r |] eqn:Hrun; [| reflexivity].
  pose proof (proj1 (approximate_sizes_defined_iff (E := mem_engine)
                       populated 1%positive "db" 2
                       [Some "a"; Some "k"] [1; 1]%N
                       [Some "z"; Some "l"] [1; 1]%N [7]%N
                       Hopen ltac:(lia))
                (ex_intro _ r Hrun)) as (_ & _ & _ & _ & Hlen).
  simpl in Hlen. lia.
Defined.

End Examples.
